(** * extract_from_cpp: the C++ comment extractor of docs/sphinx

    A shallow embedding of [docs/sphinx/extract_from_cpp.py]: the comment
    [Formatter] (marker stripping, block detection, join) and the line
    scanner [extract_file], followed by the properties of the natural
    language specification that were checked against them.

    Modelling conventions.
    - A Python [str] is a [list ascii]; a character is its code point, so
      the model covers text whose code points are below 256.  The string
      methods follow Python 3 ([isspace], [splitlines]).
    - A Python [int] is a [Z]; list indices are [Z] as well, with the
      negative-index rule written out.
    - An uncaught exception is [Raise]; the only one the program can throw
      on its own is [IndexError]. *)

From Stdlib Require Import String Ascii List ZArith Lia Bool Arith.
Import ListNotations.

Set Implicit Arguments.

(** ** Python strings and lists *)

Module Py.

Definition pystr := list ascii.

(** A literal. *)
Definition str (s : string) : pystr := list_ascii_of_string s.

Definition nl : ascii := "010"%char.
Definition cr : ascii := "013"%char.

Inductive exn := IndexError.

Inductive result (A : Type) : Type :=
| Ok (a : A)
| Raise (e : exn).

Arguments Ok {A} a.
Arguments Raise {A} e.

Definition bind {A B} (m : result A) (k : A -> result B) : result B :=
  match m with
  | Ok a => k a
  | Raise e => Raise e
  end.

(** [bool(s)] of a string: non-empty. *)
Definition truthy (s : pystr) : bool :=
  match s with [] => false | _ :: _ => true end.

(** [s.startswith(p)] *)
Fixpoint startswith (s p : pystr) {struct p} : bool :=
  match p with
  | [] => true
  | a :: p' =>
      match s with
      | [] => false
      | b :: s' => Ascii.eqb a b && startswith s' p'
      end
  end.

(** [s.startswith((p1, p2, ...))] *)
Definition startswith_any (s : pystr) (ps : list pystr) : bool :=
  existsb (startswith s) ps.

(** [s.endswith(p)] *)
Definition endswith (s p : pystr) : bool :=
  startswith (rev s) (rev p).

(** [p in s] *)
Fixpoint contains (p s : pystr) : bool :=
  startswith s p ||
  match s with
  | [] => false
  | _ :: s' => contains p s'
  end.

(** [s == t] *)
Fixpoint eqb (s t : pystr) : bool :=
  match s, t with
  | [], [] => true
  | a :: s', b :: t' => Ascii.eqb a b && eqb s' t'
  | _, _ => false
  end.

(** [c.isspace()] for a code point below 256. *)
Definition isspace (c : ascii) : bool :=
  let n := nat_of_ascii c in
  ((9 <=? n) && (n <=? 13)) || ((28 <=? n) && (n <=? 32))
  || (n =? 133) || (n =? 160).

(** [s.lstrip()] *)
Fixpoint lstrip (s : pystr) : pystr :=
  match s with
  | [] => []
  | c :: s' => if isspace c then lstrip s' else s
  end.

(** [s.rstrip()] *)
Fixpoint rstrip (s : pystr) : pystr :=
  match s with
  | [] => []
  | c :: s' =>
      match rstrip s' with
      | [] => if isspace c then [] else [c]
      | r => c :: r
      end
  end.

(** [s.strip()] *)
Definition strip (s : pystr) : pystr := lstrip (rstrip s).

(** [' ' * n] *)
Definition spaces (n : Z) : pystr := repeat " "%char (Z.to_nat n).

(** [s[i:]] *)
Definition slice_from (s : pystr) (i : Z) : pystr :=
  if (i <? 0)%Z then skipn (length s - Z.to_nat (- i)) s
  else skipn (Z.to_nat i) s.

(** [s[:n]] for a literal [n >= 0]. *)
Definition slice_to (s : pystr) (n : nat) : pystr := firstn n s.

(** The scan of [s.replace(old, new)] for a non-empty [old]: [skip] counts
    the characters of a match still to be dropped. *)
Fixpoint replace_scan (old new : pystr) (skip : nat) (s : pystr) : pystr :=
  match s with
  | [] => []
  | c :: s' =>
      match skip with
      | S k => replace_scan old new k s'
      | O =>
          if startswith s old
          then new ++ replace_scan old new (length old - 1) s'
          else c :: replace_scan old new 0 s'
      end
  end.

(** [s.replace(old, new)]: every non-overlapping occurrence, left to right. *)
Definition replace (s old new : pystr) : pystr :=
  match old with
  | [] => new ++ flat_map (fun c => c :: new) s
  | _ :: _ => replace_scan old new 0 s
  end.

(** [s.replace(old, new, 1)]: the first occurrence only. *)
Fixpoint replace_first (s old new : pystr) : pystr :=
  match s with
  | [] => match old with [] => new | _ :: _ => [] end
  | c :: s' =>
      if startswith s old then new ++ skipn (length old) s
      else c :: replace_first s' old new
  end.

(** [s.partition(sep)] for a non-empty [sep]. *)
Fixpoint partition (s sep : pystr) : pystr * pystr * pystr :=
  match s with
  | [] => ([], [], [])
  | c :: s' =>
      if startswith s sep then ([], sep, skipn (length sep) s)
      else let '(a, m, b) := partition s' sep in (c :: a, m, b)
  end.

(** [sep.join(l)] *)
Fixpoint join (sep : pystr) (l : list pystr) : pystr :=
  match l with
  | [] => []
  | x :: r =>
      match r with
      | [] => x
      | _ :: _ => x ++ sep ++ join sep r
      end
  end.

(** A line boundary of [str.splitlines] (code points below 256). *)
Definition is_linebreak (c : ascii) : bool :=
  let n := nat_of_ascii c in
  ((10 <=? n) && (n <=? 13)) || ((28 <=? n) && (n <=? 30)) || (n =? 133).

(** [s.splitlines()]: [cur] is the line being read, reversed; [after_cr]
    tells that the previous character was a carriage return, so that a
    line feed right after it belongs to the same boundary. *)
Fixpoint splitlines_scan (cur : pystr) (after_cr : bool) (s : pystr)
  : list pystr :=
  match s with
  | [] => match cur with [] => [] | _ :: _ => [rev cur] end
  | c :: s' =>
      if after_cr && Ascii.eqb c nl then splitlines_scan cur false s'
      else if is_linebreak c
           then rev cur :: splitlines_scan [] (Ascii.eqb c cr) s'
           else splitlines_scan (c :: cur) false s'
  end.

Definition splitlines (s : pystr) : list pystr := splitlines_scan [] false s.

(** [l[i]], negative indices counted from the end. *)
Definition getitem {A} (l : list A) (i : Z) : result A :=
  let n := Z.of_nat (length l) in
  let j := if (i <? 0)%Z then (i + n)%Z else i in
  if (j <? 0)%Z || (n <=? j)%Z then Raise IndexError
  else match nth_error l (Z.to_nat j) with
       | Some x => Ok x
       | None => Raise IndexError
       end.

(** [l.insert(i, x)]: the index is clamped to the list. *)
Definition insert {A} (l : list A) (i : Z) (x : A) : list A :=
  let n := Z.of_nat (length l) in
  let j := if (i <? 0)%Z then Z.max 0 (i + n) else Z.min i n in
  firstn (Z.to_nat j) l ++ x :: skipn (Z.to_nat j) l.

(** [l[i] = x] *)
Definition setitem {A} (l : list A) (i : Z) (x : A) : result (list A) :=
  let n := Z.of_nat (length l) in
  let j := if (i <? 0)%Z then (i + n)%Z else i in
  if (j <? 0)%Z || (n <=? j)%Z then Raise IndexError
  else Ok (firstn (Z.to_nat j) l ++ x :: skipn (S (Z.to_nat j)) l).

End Py.

Import Py.

Notation "x <- m ;; k" := (bind m (fun x => k))
  (at level 61, m at next level, right associativity).

(** ** The comment formatter: [class Formatter] *)

(** [Formatter.strip_comment_tags] *)
Definition strip_comment_tags (line : pystr) : pystr :=
  replace
    (replace
       (replace
          (replace
             (replace
                (replace line (str "// ") [])
                (str "//") [])
             (str "/* ") [])
          (str "/*") [])
       (str " * ") [])
    (str " *") [].

(** The six markers, in the order of the chained calls. *)
Definition comment_markers : list pystr :=
  [str "// "; str "//"; str "/* "; str "/*"; str " * "; str " *"].

(** The local variables of [Formatter.detect_block]. *)
Record block_state := mk_block {
  inside_block : bool;
  inside_list : bool;
  processed : list pystr
}.

Definition list_start_tags : list pystr :=
  [str " -"; str "-"; str " 1."; str "1."; str " (1)"; str "(1)"].

(** [if len(processed) > 1 and processed[-2]: processed.insert(-1, '')] *)
Definition separate (p : list pystr) : result (list pystr) :=
  if 1 <? length p then
    prev <- getitem p (-2) ;;
    Ok (if truthy prev then insert p (-1) [] else p)
  else Ok p.

(** The condition of the [elif] that opens a code block; the middle
    disjunct reads [processed[-3]] once the line ends with a semicolon. *)
Definition opens_block (p : list pystr) (l : pystr) : result bool :=
  if startswith l (str "  ") then Ok true
  else
    colon <- (if endswith l (str ";")
              then before <- getitem p (-3) ;; Ok (endswith before (str ":"))
              else Ok false) ;;
    if colon then Ok true
    else Ok (startswith l (str " ") && endswith l (str ";")).

(** [# ensure code-block indent] *)
Definition ensure_indent (inside : bool) (p : list pystr) (l : pystr)
  : result (list pystr) :=
  if inside && negb (startswith l (str "  ")) then
    last <- getitem p (-1) ;;
    setitem p (-1) (str "  " ++ last)
  else Ok p.

(** The part of the loop body after the list tests. *)
Definition detect_code (inside : bool) (p : list pystr) (l : pystr)
  : result block_state :=
  if inside then
    let keep := startswith l (str " ") || negb (truthy l)
                || endswith l (str ";") in
    let inside' := keep in
    let p1 := if keep then p else insert p (-1) [] in
    p2 <- ensure_indent inside' p1 l ;;
    Ok (mk_block inside' false p2)
  else
    opens <- opens_block p l ;;
    if opens then
      p1 <- separate p ;;
      let p2 := insert p1 (-1) (str ".. code-block:: cpp") in
      let p3 := insert p2 (-1) [] in
      p4 <- ensure_indent true p3 l ;;
      Ok (mk_block true false p4)
    else
      p1 <- ensure_indent false p l ;;
      Ok (mk_block false false p1).

(** One iteration of [for l in lines] in [detect_block]. *)
Definition detect_line (st : block_state) (l : pystr) : result block_state :=
  let p := processed st ++ [l] in
  let continues :=
    startswith l (str " ") || (length l <=? 1)
    || contains (str ". ") (slice_to l 5)
    || contains (str ") ") (slice_to l 5) in
  if inside_list st && continues then
    Ok (mk_block (inside_block st) true p)
  else
    let p := if inside_list st then insert p (-1) [] else p in
    if startswith_any l list_start_tags then
      p1 <- separate p ;;
      Ok (mk_block (inside_block st) true p1)
    else detect_code (inside_block st) p l.

(** The loop of [detect_block], from any state. *)
Fixpoint detect_lines (st : block_state) (lines : list pystr)
  : result block_state :=
  match lines with
  | [] => Ok st
  | l :: rest => st' <- detect_line st l ;; detect_lines st' rest
  end.

Definition detect_init : block_state := mk_block false false [].

(** [Formatter.detect_block] *)
Definition detect_block (lines : list pystr) : result (list pystr) :=
  st <- detect_lines detect_init lines ;; Ok (processed st).

(** [Formatter.comment]; no method reads [self.indent], so the formatter
    object itself is left out. *)
Definition comment (lines : list pystr) : result pystr :=
  p <- detect_block (map strip_comment_tags lines) ;;
  Ok (join [nl] (map (fun l => str "  " ++ l) p)).

(** The reading of Step 1 in the specification: each marker removed once,
    at its first occurrence, in the same order.  Kept apart from
    [strip_comment_tags] to compare the two. *)
Definition strip_first_occurrences (line : pystr) : pystr :=
  fold_left (fun s marker => replace_first s marker []) comment_markers line.

(** ** Regular expressions: the part of [re] the two patterns use *)

Module Re.

Inductive regex :=
| Void
| Eps
| Cls (p : ascii -> bool)
| Cat (r1 r2 : regex)
| Alt (r1 r2 : regex)
| Star (r : regex).

Fixpoint nullable (r : regex) : bool :=
  match r with
  | Void => false
  | Eps => true
  | Cls _ => false
  | Cat r1 r2 => nullable r1 && nullable r2
  | Alt r1 r2 => nullable r1 || nullable r2
  | Star _ => true
  end.

Definition cat (r1 r2 : regex) : regex :=
  match r1, r2 with
  | Void, _ => Void
  | _, Void => Void
  | Eps, _ => r2
  | _, _ => Cat r1 r2
  end.

Definition alt (r1 r2 : regex) : regex :=
  match r1, r2 with
  | Void, _ => r2
  | _, Void => r1
  | _, _ => Alt r1 r2
  end.

(** The residual of [r] after reading [c]. *)
Fixpoint deriv (c : ascii) (r : regex) : regex :=
  match r with
  | Void => Void
  | Eps => Void
  | Cls p => if p c then Eps else Void
  | Cat r1 r2 =>
      if nullable r1 then alt (cat (deriv c r1) r2) (deriv c r2)
      else cat (deriv c r1) r2
  | Alt r1 r2 => alt (deriv c r1) (deriv c r2)
  | Star r1 => cat (deriv c r1) (Star r1)
  end.

(** Some prefix of [s] is in the language of [r]: [re.match]. *)
Fixpoint match_prefix (r : regex) (s : pystr) : bool :=
  nullable r ||
  match s with
  | [] => false
  | c :: s' => match_prefix (deriv c r) s'
  end.

(** Some substring of [s] is in the language of [r]:
    [r.search(s) is not None]. *)
Fixpoint search (r : regex) (s : pystr) : bool :=
  match_prefix r s ||
  match s with
  | [] => false
  | _ :: s' => search r s'
  end.

Definition chr (c : ascii) : regex := Cls (Ascii.eqb c).

Fixpoint lit (s : pystr) : regex :=
  match s with
  | [] => Eps
  | c :: s' => Cat (chr c) (lit s')
  end.

Definition in_range (lo hi : ascii) (c : ascii) : bool :=
  (nat_of_ascii lo <=? nat_of_ascii c) && (nat_of_ascii c <=? nat_of_ascii hi).

(** [.]: any character but a line feed. *)
Definition dot : regex := Cls (fun c => negb (Ascii.eqb c nl)).

Definition plus (r : regex) : regex := Cat r (Star r).

Definition opt (r : regex) : regex := Alt Eps r.

End Re.

(** [[a-zA-Z0-9]] *)
Definition alnum (c : ascii) : bool :=
  Re.in_range "a" "z" c || Re.in_range "A" "Z" c || Re.in_range "0" "9" c.

(** [[a-z_A-Z0-9]] *)
Definition ident_char (c : ascii) : bool :=
  Re.in_range "a" "z" c || Ascii.eqb "_" c || Re.in_range "A" "Z" c
  || Re.in_range "0" "9" c.

(** [([A-Z][a-zA-Z0-9]+|int|double|bool|void|const)[\*&]{0,2} [a-z_A-Z0-9]+\(] *)
Definition function_re_partial : Re.regex :=
  let type_name :=
    Re.Alt (Re.Cat (Re.Cls (Re.in_range "A" "Z")) (Re.plus (Re.Cls alnum)))
      (Re.Alt (Re.lit (str "int"))
         (Re.Alt (Re.lit (str "double"))
            (Re.Alt (Re.lit (str "bool"))
               (Re.Alt (Re.lit (str "void")) (Re.lit (str "const")))))) in
  let qualifier := Re.Cls (fun c => Ascii.eqb "*" c || Ascii.eqb "&" c) in
  Re.Cat type_name
    (Re.Cat (Re.opt (Re.Cat qualifier (Re.opt qualifier)))
       (Re.Cat (Re.chr " ")
          (Re.Cat (Re.plus (Re.Cls ident_char)) (Re.chr "(")))).

(** [function_re]: the partial pattern followed by [.*\).*[;\{]] *)
Definition function_re : Re.regex :=
  Re.Cat function_re_partial
    (Re.Cat (Re.Star Re.dot)
       (Re.Cat (Re.chr ")")
          (Re.Cat (Re.Star Re.dot)
             (Re.Cls (fun c => Ascii.eqb ";" c || Ascii.eqb "{" c))))).

(** ** The scanner: [extract_file] *)

Definition COMMENT_TAGS : list pystr := [str "//"; str "/*"; str " *"].

Definition class_template (name description : pystr) : pystr :=
  [nl] ++ str ".. cpp:class:: " ++ name ++ [nl; nl] ++ description ++ [nl].

Definition method_template (name description : pystr) : pystr :=
  [nl] ++ str ".. cpp:function:: " ++ name ++ [nl; nl] ++ description ++ [nl].

Definition type_template (name description : pystr) : pystr :=
  [nl] ++ str ".. cpp:type:: " ++ name ++ [nl; nl] ++ description ++ [nl].

(** The dictionary [special_cases], in source order. *)
Definition special_cases : list (pystr * pystr) :=
  [ (str "//  // is the planar centroid, which is simply the centroid of the ordinary",
     str "// is the planar centroid, which is simply the centroid of the ordinary");
    (str "// ----------------", str "// ");
    (str "//  (3) RobustCrossing(a,b,c,d) <= 0 if a==b or c==d",
     str "//  (4) RobustCrossing(a,b,c,d) <= 0 if a==b or c==d");
    (str "//  (3) If exactly one of a,b equals one of c,d, then exactly one of",
     str "//  (4) If exactly one of a,b equals one of c,d, then exactly one of");
    (str "// to be different than vertex(*next_vertex), so this will never result in",
     str "// to be different than `vertex(*next_vertex)`, so this will never result in");
    (str "// Return true if lng_.lo() > lng_.hi(), i.e. the rectangle crosses",
     str "// Return true if `lng_.lo() > lng_.hi()`, i.e. the rectangle crosses") ].

(** [d[k]] when [k in d] *)
Fixpoint lookup (d : list (pystr * pystr)) (k : pystr) : option pystr :=
  match d with
  | [] => None
  | (k', v) :: d' => if Py.eqb k k' then Some v else lookup d' k
  end.

(** The local variables of [extract_file], with the text written to
    [out_file] so far, one entry per [write]. *)
Record scan_state := mk_scan {
  indent : Z;
  cached_lines : list pystr;
  partial_function : pystr;
  is_private : bool;
  out_file : list pystr
}.

Definition scan_init : scan_state := mk_scan 0 [] [] false [].

(** The condition of the [while] that unwinds the indent. *)
Definition unwind_cond (line : pystr) (ind : Z) : bool :=
  (1 <? length line) && negb (ind =? 0)%Z
  && negb (startswith line (spaces ind))
  && negb (contains (str "public:") line)
  && negb (contains (str "private:") line)
  && negb (contains (str "protected:") line).

(** At most [fuel] turns of the [while]. *)
Fixpoint unwind_loop (fuel : nat) (line : pystr) (ind : Z) (priv : bool)
  : Z * bool :=
  match fuel with
  | O => (ind, priv)
  | S fuel' =>
      if unwind_cond line ind then unwind_loop fuel' line (ind - 2)%Z false
      else (ind, priv)
  end.

(** The [while] loop: each turn takes 2 from a positive indent, so
    [indent] turns are enough ([unwind_exit] below). *)
Definition unwind (line : pystr) (ind : Z) (priv : bool) : Z * bool :=
  unwind_loop (Z.to_nat ind) line ind priv.

(** The two [if]s that follow [line = line[indent:]]. *)
Definition visibility (line : pystr) (priv : bool) : bool :=
  let priv1 :=
    if startswith_any line [str "rivate:"; str "rotected:"] then true
    else priv in
  if startswith line (str "ublic:") then false else priv1.

(** [for l in txt.splitlines(): out_file.write((' ' * indent + l).rstrip() + '\n')] *)
Definition emit (ind : Z) (txt : pystr) : list pystr :=
  map (fun l => rstrip (spaces ind ++ l) ++ [nl]) (splitlines txt).

(** [name, _, _ = name.partition('{')] under [if '{' in name] *)
Definition before_brace (name : pystr) : pystr :=
  if contains (str "{") name
  then let '(a, _, _) := partition name (str "{") in a
  else name.

Definition class_name (line : pystr) : pystr :=
  strip (replace (before_brace (slice_from line 6)) (str ";") []).

Definition typedef_name (line : pystr) : pystr :=
  strip (replace (slice_from line 8) (str ";") []).

Definition template_name (line : pystr) : pystr :=
  strip
    (replace
       (replace (replace (before_brace line) (str ";") [])
          (str "> class ") (str "> "))
       (str "> struct ") (str "> ")).

(** The name of a function entry and the comment lines it is given. *)
Definition function_name (text : pystr) (cached : list pystr)
  : pystr * list pystr :=
  let '(name, cached) :=
    if contains (str "//") text
    then let '(a, _, c) := partition text (str "//") in
         (a, cached ++ [str "// " ++ c])
    else (text, cached) in
  (strip (replace (before_brace name) (str ";") []), cached).

(** The statements after the [if]/[elif] chain. *)
Definition finish (ind : Z) (line : pystr) (cached : list pystr)
  (out : list pystr) : scan_state :=
  mk_scan ind (if truthy line then [] else cached) [] false out.

(** The body of [for line in in_file], after the lines that are skipped. *)
Definition classify (ind : Z) (st : scan_state) (line : pystr)
  : result scan_state :=
  let line := rstrip line in
  let line := match lookup special_cases line with
              | Some v => v
              | None => line
              end in
  let cached := cached_lines st in
  let out := out_file st in
  if startswith_any (strip line) COMMENT_TAGS then
    Ok (mk_scan ind (cached ++ [line]) (partial_function st) false out)
  else if startswith line (str "class") && contains (str "{") line then
    description <- comment cached ;;
    let txt := class_template (class_name line) description in
    Ok (finish (ind + 2) line cached (out ++ emit ind txt))
  else if startswith line (str "typedef") && endswith line (str ";") then
    description <- comment cached ;;
    let txt := type_template (typedef_name line) description in
    Ok (finish (ind + 2) line cached (out ++ emit ind txt))
  else if startswith line (str "template")
          && (contains (str "(") line || contains (str "{") line) then
    description <- comment cached ;;
    let txt := class_template (template_name line) description in
    Ok (finish (ind + 2) line cached (out ++ emit ind txt))
  else if Re.search function_re (partial_function st ++ strip line) then
    let '(name, cached) :=
      function_name (partial_function st ++ strip line) cached in
    description <- comment cached ;;
    let txt := method_template name description in
    Ok (finish ind line cached (out ++ emit ind txt))
  else if Re.search function_re_partial line then
    Ok (mk_scan ind cached (line ++ str " ") false out)
  else Ok (finish ind line cached out).

(** One turn of [for line in in_file]. *)
Definition scan_line (st : scan_state) (line : pystr) : result scan_state :=
  let '(ind, priv) := unwind line (indent st) (is_private st) in
  let line := slice_from line ind in
  let priv := visibility line priv in
  if priv then
    Ok (mk_scan ind (cached_lines st) (partial_function st) true (out_file st))
  else classify ind st line.

(** The loop of [extract_file], from any state. *)
Fixpoint scan_lines (st : scan_state) (lines : list pystr)
  : result scan_state :=
  match lines with
  | [] => Ok st
  | line :: rest => st' <- scan_line st line ;; scan_lines st' rest
  end.

(** [extract_file]: what one input file adds to the output. *)
Definition extract_file (in_file : list pystr) : result (list pystr) :=
  st <- scan_lines scan_init in_file ;; Ok (out_file st).

(** The three comment lines of the bullet-list scenario. *)
Definition bullet_lines : list pystr :=
  [str "// - item one"; str "// - item two"; str "//"].

(** [x] immediately followed by [y] in [l]. *)
Definition adjacent (x y : pystr) (l : list pystr) : Prop :=
  exists pre post, l = pre ++ x :: y :: post.

(** The indent invariant of the scanner. *)
Definition indent_ok (n : Z) : Prop := (0 <= n)%Z /\ Z.even n = true.

(** [c != ';'] *)
Definition not_semicolon (c : ascii) : bool := negb (Ascii.eqb ";" c).

(** A line as the file iterator yields it: the text and its line feed. *)
Definition fileline (s : string) : pystr := str s ++ [nl].

(** [if line in special_cases: line = special_cases[line]] *)
Definition remap (line : pystr) : pystr :=
  match lookup special_cases line with
  | Some v => v
  | None => line
  end.

(** The words a pattern denotes; [Re.search] is compared with it below. *)
Inductive re_lang : Re.regex -> pystr -> Prop :=
| lang_eps : re_lang Re.Eps []
| lang_cls p c : p c = true -> re_lang (Re.Cls p) [c]
| lang_cat r1 r2 u v :
    re_lang r1 u -> re_lang r2 v -> re_lang (Re.Cat r1 r2) (u ++ v)
| lang_alt_l r1 r2 u : re_lang r1 u -> re_lang (Re.Alt r1 r2) u
| lang_alt_r r1 r2 u : re_lang r2 u -> re_lang (Re.Alt r1 r2) u
| lang_star_nil r : re_lang (Re.Star r) []
| lang_star_cons r u v :
    re_lang r u -> re_lang (Re.Star r) v -> re_lang (Re.Star r) (u ++ v).

(** A line that [detect_block] puts in by itself. *)
Definition inserted (x : pystr) : Prop :=
  x = [] \/ x = str ".. code-block:: cpp".

(** [out] is [lines] in order, each line as it is or behind two more
    spaces, with inserted lines in between. *)
Inductive kept : list pystr -> list pystr -> Prop :=
| kept_nil : kept [] []
| kept_same l ls os : kept ls os -> kept (l :: ls) (l :: os)
| kept_indent l ls os : kept ls os -> kept (l :: ls) ((str "  " ++ l) :: os)
| kept_inserted x ls os : inserted x -> kept ls os -> kept ls (x :: os).

(** A line that starts no list and no code block. *)
Definition plain (l : pystr) : Prop :=
  startswith_any l list_start_tags = false
  /\ startswith l (str "  ") = false
  /\ endswith l (str ";") = false.

(** What one [out_file.write] of the scanner passes: a text without
    trailing white space, and a line feed. *)
Definition written_line (x : pystr) : Prop :=
  exists body, x = rstrip body ++ [nl].

(** A line that can start no entry: no opening parenthesis, and none of
    the three keywords at its start. *)
Definition no_declaration (l : pystr) : Prop :=
  contains (str "(") l = false
  /\ startswith l (str "class") = false
  /\ startswith l (str "typedef") = false
  /\ startswith l (str "template") = false.

(** [q] is [p0], then inserted lines, then the line [l] being processed. *)
Definition pending (p0 : list pystr) (l : pystr) (q : list pystr) : Prop :=
  exists ins, q = (p0 ++ ins) ++ [l] /\ Forall inserted ins.

(** [q] is [p0], then inserted lines, then [l] as it is or behind two
    more spaces. *)
Definition appended (p0 : list pystr) (l : pystr) (q : list pystr) : Prop :=
  exists ins l',
    q = (p0 ++ ins) ++ [l'] /\ Forall inserted ins
    /\ (l' = l \/ l' = str "  " ++ l).

(** * Properties *)

(** ** Strings *)

Section StringFacts.

Implicit Types s p old new u v w : pystr.

Lemma startswith_nil s : startswith s [] = true.
Proof. destruct s; reflexivity. Qed.

Lemma startswith_app p s : startswith (p ++ s) p = true.
Proof.
  induction p as [|a p IH]; simpl.
  - reflexivity.
  - now rewrite Ascii.eqb_refl, IH.
Qed.

Lemma startswith_split s p :
  startswith s p = true -> s = p ++ skipn (length p) s.
Proof.
  revert s; induction p as [|a p IH]; intros s H; simpl in *.
  - reflexivity.
  - destruct s as [|b s]; [discriminate|].
    apply andb_true_iff in H as [Hab Hs].
    apply Ascii.eqb_eq in Hab; subst b.
    simpl. f_equal. now apply IH.
Qed.

Lemma startswith_length s p :
  startswith s p = true -> length p <= length s.
Proof.
  intros H. rewrite (startswith_split _ _ H) at 1.
  rewrite length_app. lia.
Qed.

(** Only the first [length p] characters matter. *)
Lemma startswith_app_l w t p :
  length p <= length w -> startswith (w ++ t) p = startswith w p.
Proof.
  revert w; induction p as [|a p IH]; intros w Hlen; simpl in *.
  - reflexivity.
  - destruct w as [|b w]; simpl in *; [lia|].
    rewrite IH by lia. reflexivity.
Qed.

Lemma startswith_prefix s p q :
  startswith s (p ++ q) = true -> startswith s p = true.
Proof.
  revert s; induction p as [|a p IH]; intros s H; simpl in *.
  - reflexivity.
  - destruct s as [|b s]; [discriminate|].
    apply andb_true_iff in H as [Hab Hs].
    rewrite Hab. simpl. now apply IH with (1 := Hs).
Qed.

Lemma contains_prefix s p q :
  contains (p ++ q) s = true -> contains p s = true.
Proof.
  induction s as [|c s IH]; simpl; intros H.
  - rewrite orb_false_r in *. now apply startswith_prefix with q.
  - apply orb_true_iff in H as [H|H].
    + now rewrite (startswith_prefix _ _ _ H).
    + rewrite (IH H). apply orb_true_r.
Qed.

Lemma contains_false_head p s :
  contains p s = false -> startswith s p = false.
Proof.
  destruct s; simpl; intros H; now apply orb_false_iff in H as [H _].
Qed.

Lemma contains_false_tail p c s :
  contains p (c :: s) = false -> contains p s = false.
Proof.
  simpl; intros H; now apply orb_false_iff in H as [_ H].
Qed.

(** *** [replace] *)

Lemma replace_scan_absent old new s :
  contains old s = false -> replace_scan old new 0 s = s.
Proof.
  induction s as [|c s IH]; intros H.
  - reflexivity.
  - cbn [replace_scan].
    rewrite (contains_false_head _ _ H).
    f_equal. apply IH. now apply contains_false_tail with c.
Qed.

Lemma replace_scan_skip old new w v :
  replace_scan old new (length w) (w ++ v) = replace_scan old new 0 v.
Proof.
  induction w as [|c w IH]; simpl.
  - reflexivity.
  - exact IH.
Qed.

Lemma replace_scan_match old new v :
  old <> [] ->
  replace_scan old new 0 (old ++ v) = new ++ replace_scan old new 0 v.
Proof.
  intros Hne. destruct old as [|a old]; [congruence|].
  change ((a :: old) ++ v) with (a :: (old ++ v)).
  cbn [replace_scan].
  change (a :: old ++ v) with ((a :: old) ++ v).
  rewrite startswith_app.
  f_equal.
  replace (length (a :: old) - 1) with (length old) by (simpl; lia).
  apply replace_scan_skip.
Qed.

Lemma replace_scan_length old k s :
  length (replace_scan old [] k s) <= length s.
Proof.
  revert k; induction s as [|c s IH]; intros k; simpl.
  - lia.
  - destruct k as [|k].
    + destruct (startswith (c :: s) old); simpl.
      * specialize (IH (length old - 1)). lia.
      * specialize (IH 0). lia.
    + specialize (IH k). lia.
Qed.

Lemma replace_scan_shorter old s :
  old <> [] ->
  contains old s = true ->
  length (replace_scan old [] 0 s) < length s.
Proof.
  intros Hne.
  induction s as [|c s IH]; intros H.
  - destruct old; [congruence|discriminate].
  - cbn [replace_scan]. simpl in H.
    destruct (startswith (c :: s) old) eqn:E.
    + simpl. pose proof (replace_scan_length old (length old - 1) s). lia.
    + simpl in H. specialize (IH H). simpl. lia.
Qed.

Lemma contains_nil s : contains [] s = true.
Proof. destruct s; reflexivity. Qed.

Lemma replace_absent s old new :
  contains old s = false -> replace s old new = s.
Proof.
  intros H. destruct old as [|a old].
  - now rewrite contains_nil in H.
  - now apply replace_scan_absent.
Qed.

Lemma replace_length s old :
  old <> [] -> length (replace s old []) <= length s.
Proof.
  intros Hne. destruct old as [|a old]; [congruence|].
  apply replace_scan_length.
Qed.

Lemma replace_shorter s old :
  old <> [] -> contains old s = true ->
  length (replace s old []) < length s.
Proof.
  intros Hne H. destruct old as [|a old]; [congruence|].
  now apply replace_scan_shorter.
Qed.

(** The leftmost occurrence of [old] is replaced and the scan goes on
    behind it. *)
Lemma replace_leftmost old new u v :
  contains old (u ++ removelast old) = false ->
  replace (u ++ old ++ v) old new = u ++ new ++ replace v old new.
Proof.
  intros H.
  assert (Hne : old <> []).
  { intros ->. now rewrite contains_nil in H. }
  destruct old as [|a old]; [congruence|].
  unfold replace.
  induction u as [|c u IH].
  - exact (replace_scan_match new v Hne).
  - change ((c :: u) ++ (a :: old) ++ v)
      with (c :: (u ++ (a :: old) ++ v)).
    cbn [replace_scan].
    assert (Hhead :
      startswith (c :: u ++ (a :: old) ++ v) (a :: old) = false).
    { pose proof (contains_false_head _ _ H) as Hh.
      rewrite (app_removelast_last a Hne).
      change (c :: u ++ (removelast (a :: old) ++ [last (a :: old) a]) ++ v)
        with ((c :: u) ++ (removelast (a :: old) ++ [last (a :: old) a]) ++ v).
      rewrite <- app_assoc, app_assoc.
      rewrite startswith_app_l.
      - rewrite <- (app_removelast_last a Hne). exact Hh.
      - rewrite <- (app_removelast_last a Hne).
        rewrite length_app.
        assert (length (a :: old) = S (length (removelast (a :: old)))).
        { rewrite (app_removelast_last a Hne) at 1.
          rewrite length_app. simpl. lia. }
        simpl length in *. lia. }
    rewrite Hhead. simpl. f_equal. apply IH.
    now apply contains_false_tail with c.
Qed.

End StringFacts.

(** ** The comment formatter *)

Lemma strip_comment_tags_fold line :
  strip_comment_tags line
  = fold_left (fun s m => replace s m []) comment_markers line.
Proof. reflexivity. Qed.

Lemma comment_markers_nonempty m : In m comment_markers -> m <> [].
Proof.
  unfold comment_markers; simpl.
  intros H; repeat destruct H as [<-|H]; try discriminate; contradiction.
Qed.

Lemma strip_passes_length ms s :
  Forall (fun m => m <> []) ms ->
  length (fold_left (fun s m => replace s m []) ms s) <= length s.
Proof.
  intros Hms; revert s.
  induction Hms as [|m ms Hm _ IH]; intros s; simpl.
  - lia.
  - specialize (IH (replace s m [])).
    pose proof (replace_length s Hm). lia.
Qed.

(** A run of passes leaves [s] as it is exactly when no marker of the run
    occurs in [s]. *)
Lemma strip_passes_fixed ms s :
  Forall (fun m => m <> []) ms ->
  fold_left (fun s m => replace s m []) ms s = s <->
  Forall (fun m => contains m s = false) ms.
Proof.
  intros Hms; revert s.
  induction Hms as [|m ms Hm Hms IH]; intros s; simpl.
  - split; auto.
  - split.
    + intros Hfix.
      destruct (contains m s) eqn:E.
      * exfalso.
        pose proof (replace_shorter s Hm E).
        pose proof (strip_passes_length (replace s m []) Hms) as Hle.
        rewrite Hfix in Hle. lia.
      * rewrite (replace_absent s m [] E) in Hfix.
        constructor; [exact E|]. now apply IH.
    + intros Hall. inversion Hall as [|? ? E Hall']; subst.
      rewrite (replace_absent s m [] E). now apply IH.
Qed.

(** A first line that ends with a semicolon, is not indented by two spaces
    and opens no list makes [detect_block] read [processed[-3]] while
    [processed] holds one line. *)
Lemma detect_block_raises_on_first_line l rest :
  startswith l (str "  ") = false ->
  endswith l (str ";") = true ->
  startswith_any l list_start_tags = false ->
  detect_block (l :: rest) = Raise IndexError.
Proof.
  intros Hind Hsemi Hlist.
  unfold detect_block. cbn [detect_lines].
  unfold detect_line. cbn [inside_list inside_block detect_init processed].
  cbn [andb app]. rewrite Hlist.
  unfold detect_code, opens_block. rewrite Hind, Hsemi.
  reflexivity.
Qed.

(** C1 (code defect).  The formatter does fail: on the single comment line
    [// x;], on [// x;] as second line and on a stripped first line made
    of one space and a statement, [comment]/[detect_block] raise
    [IndexError] instead of producing a block, because [processed[-3]] is
    read without the length test that guards [processed[-2]]. *)
Theorem comment_raises_on_leading_statement :
  comment [str "// x;"] = Raise IndexError
  /\ comment [str "// a"; str "// x;"] = Raise IndexError
  /\ detect_block [str " x;"] = Raise IndexError.
Proof. split; [|split]; vm_compute; reflexivity. Qed.

(** C4 (counterexample).  Stripping [/ */] gives [//], and stripping that
    again gives the empty string: Step 1 is not idempotent there. *)
Lemma strip_comment_tags_not_idempotent :
  strip_comment_tags (strip_comment_tags (str "/ */"))
  <> strip_comment_tags (str "/ */").
Proof. vm_compute. discriminate. Qed.

(** C4 (amended).  A second run of Step 1 leaves the output of the first
    unchanged exactly when that output contains none of the markers [//],
    [/*] and [ *]. *)
Theorem strip_comment_tags_twice line :
  strip_comment_tags (strip_comment_tags line) = strip_comment_tags line
  <->
  (contains (str "//") (strip_comment_tags line) = false
   /\ contains (str "/*") (strip_comment_tags line) = false
   /\ contains (str " *") (strip_comment_tags line) = false).
Proof.
  set (s := strip_comment_tags line).
  rewrite (strip_comment_tags_fold s).
  assert (Hne : Forall (fun m => m <> []) comment_markers).
  { apply Forall_forall. intros m. apply comment_markers_nonempty. }
  rewrite (strip_passes_fixed s Hne).
  unfold comment_markers. split.
  - intros H.
    repeat match goal with
           | H : Forall _ (_ :: _) |- _ => inversion H; subst; clear H
           end.
    auto.
  - intros (H1 & H2 & H3).
    assert (P : forall m q, contains m s = false ->
                            contains (m ++ q) s = false).
    { intros m q Hm. destruct (contains (m ++ q) s) eqn:E; [|reflexivity].
      now rewrite (contains_prefix _ _ _ E) in Hm. }
    repeat constructor; try assumption.
    + exact (P (str "//") (str " ") H1).
    + exact (P (str "/*") (str " ") H2).
    + exact (P (str " *") (str " ") H3).
Qed.

(** C5 (counterexample).  On [//a//b] Step 1 removes both occurrences of
    [//] and yields [ab]; removing first occurrences only would leave
    [a//b]. *)
Lemma strip_comment_tags_removes_later_occurrence :
  strip_comment_tags (str "//a//b") = str "ab"
  /\ strip_first_occurrences (str "//a//b") = str "a//b"
  /\ strip_comment_tags (str "//a//b")
     <> strip_first_occurrences (str "//a//b").
Proof. split; [|split]; vm_compute; [reflexivity|reflexivity|discriminate]. Qed.

(** C5 (amended).  Step 1 is six passes, one per marker in the fixed order
    [// ], [//], [/* ], [/*], [ * ], [ *]; a pass removes every occurrence
    of its marker met in a left-to-right scan: the leftmost occurrence is
    dropped and the scan resumes behind it, and a text without the marker
    is left as it is. *)
Theorem strip_comment_tags_removes_every_occurrence :
  (forall line,
      strip_comment_tags line
      = fold_left (fun s m => replace s m []) comment_markers line)
  /\ (forall m u v,
         In m comment_markers ->
         contains m (u ++ removelast m) = false ->
         replace (u ++ m ++ v) m [] = u ++ replace v m [])
  /\ (forall m s,
         In m comment_markers ->
         contains m s = false -> replace s m [] = s).
Proof.
  split; [|split].
  - exact strip_comment_tags_fold.
  - intros m u v _ H. exact (@replace_leftmost m [] u v H).
  - intros m s _ H. now apply replace_absent.
Qed.

Lemma strip_comment_tags_removes_every_occurrence_witness :
  replace (str "a" ++ str "//" ++ str "b//c") (str "//") []
  = str "a" ++ replace (str "b//c") (str "//") [].
Proof.
  apply (proj1 (proj2 strip_comment_tags_removes_every_occurrence)).
  - simpl. tauto.
  - reflexivity.
Defined.

(** C6 (counterexample).  For [// - item one], [// - item two], [//] the
    two items are not adjacent in the formatted lines and the list flag is
    not cleared at the blank line. *)
Lemma bullet_items_get_separated :
  ~ (exists st,
        detect_lines detect_init (map strip_comment_tags bullet_lines)
        = Ok st
        /\ (adjacent (str "- item one") (str "- item two") (processed st)
            \/ inside_list st = false)).
Proof.
  intros (st & Hrun & H).
  vm_compute in Hrun. injection Hrun as <-.
  destruct H as [(pre & post & H)|H]; [|discriminate].
  cbn [processed] in H.
  destruct pre as [|x0 [|x1 [|x2 [|x3 pre]]]]; try discriminate H.
  destruct pre; discriminate H.
Qed.

(** C6 (amended).  For [// - item one], [// - item two], [//] the second
    hyphen item ends the list and opens it again, so one blank separator
    line is inserted between the two items; the blank line continues the
    list, which is still open at the end. *)
Theorem bullet_items_formatted :
  detect_lines detect_init (map strip_comment_tags bullet_lines)
  = Ok (mk_block false true
          [str "- item one"; []; str "- item two"; []])
  /\ comment bullet_lines
     = Ok (str "  - item one" ++ [nl] ++ str "  " ++ [nl]
           ++ str "  - item two" ++ [nl] ++ str "  ").
Proof. split; vm_compute; reflexivity. Qed.

(** ** The scanner *)

(** *** The unwind loop *)

Lemma unwind_cond_short line ind :
  length line <= 1 -> unwind_cond line ind = false.
Proof.
  intros H. unfold unwind_cond.
  destruct (Nat.ltb_spec 1 (length line)); [lia|reflexivity].
Qed.

Lemma unwind_cond_nonpositive line ind :
  (ind <= 0)%Z -> unwind_cond line ind = false.
Proof.
  intros H. unfold unwind_cond.
  destruct (Z.eqb_spec ind 0) as [->|Hne].
  - now rewrite andb_false_r.
  - unfold spaces. replace (Z.to_nat ind) with 0 by lia.
    cbn [repeat startswith negb]. now rewrite andb_false_r.
Qed.

(** Fuel beyond the indent is never used. *)
Lemma unwind_loop_fuel f1 : forall f2 line ind priv,
  (ind <= Z.of_nat f1)%Z -> (ind <= Z.of_nat f2)%Z ->
  unwind_loop f1 line ind priv = unwind_loop f2 line ind priv.
Proof.
  induction f1 as [|f1 IH]; intros f2 line ind priv H1 H2.
  - simpl. destruct f2; simpl; [reflexivity|].
    now rewrite unwind_cond_nonpositive by lia.
  - destruct f2 as [|f2]; simpl.
    + now rewrite unwind_cond_nonpositive by lia.
    + destruct (unwind_cond line ind); [|reflexivity].
      apply IH; lia.
Qed.

(** The equation of the [while] loop. *)
Lemma unwind_step line ind priv :
  unwind line ind priv
  = if unwind_cond line ind then unwind line (ind - 2) false
    else (ind, priv).
Proof.
  unfold unwind.
  destruct (unwind_cond line ind) eqn:E.
  - destruct (Z.to_nat ind) as [|k] eqn:Ek.
    + rewrite unwind_cond_nonpositive in E by lia. discriminate.
    + simpl. rewrite E. apply unwind_loop_fuel; lia.
  - destruct (Z.to_nat ind); simpl; [reflexivity|now rewrite E].
Qed.

(** The loop is left with its condition false. *)
Lemma unwind_exit line ind priv :
  unwind_cond line (fst (unwind line ind priv)) = false.
Proof.
  unfold unwind.
  assert (G : forall f i p, (i <= Z.of_nat f)%Z ->
              unwind_cond line (fst (unwind_loop f line i p)) = false).
  { induction f as [|f IH]; intros i p Hi; simpl.
    - apply unwind_cond_nonpositive. lia.
    - destruct (unwind_cond line i) eqn:E; [|exact E].
      apply IH. lia. }
  apply G. lia.
Qed.

Lemma indent_ok_add2 n : indent_ok n -> indent_ok (n + 2).
Proof.
  intros [Hn He]. split; [lia|].
  rewrite Z.even_add, He. reflexivity.
Qed.

Lemma unwind_loop_indent_ok fuel : forall line ind priv,
  indent_ok ind -> indent_ok (fst (unwind_loop fuel line ind priv)).
Proof.
  induction fuel as [|fuel IH]; intros line ind priv Hok; simpl.
  - exact Hok.
  - destruct (unwind_cond line ind) eqn:E; [|exact Hok].
    apply IH. destruct Hok as [Hn He].
    assert (ind <> 0%Z).
    { intros ->. now rewrite unwind_cond_nonpositive in E by lia. }
    assert (ind <> 1%Z) by (intros ->; discriminate He).
    split; [lia|].
    rewrite Z.even_sub, He. reflexivity.
Qed.

(** *** Classification *)

Lemma eqb_eq s : forall t, Py.eqb s t = true -> s = t.
Proof.
  induction s as [|a s IH]; intros [|b t] H; simpl in H;
    try discriminate; [reflexivity|].
  apply andb_true_iff in H as [Hab Hst].
  apply Ascii.eqb_eq in Hab. f_equal; auto.
Qed.

(** Every key of [special_cases] is a [//] comment. *)
Lemma lookup_special_cases_comment l v :
  lookup special_cases l = Some v -> startswith l (str "//") = true.
Proof.
  unfold special_cases. cbn [lookup].
  repeat match goal with
         | |- context [Py.eqb l ?k] =>
             let E := fresh "E" in
             destruct (Py.eqb l k) eqn:E;
             [apply eqb_eq in E; subst l; intros _; reflexivity|clear E]
         end.
  discriminate.
Qed.

Lemma lookup_special_cases_none l :
  startswith l (str "//") = false -> lookup special_cases l = None.
Proof.
  intros H. destruct (lookup special_cases l) eqn:E; [|reflexivity].
  apply lookup_special_cases_comment in E. congruence.
Qed.

(** Whatever branch is taken, a classified line leaves the scanner public,
    with the indent as it was or 2 more. *)
Lemma classify_result ind st line st' :
  classify ind st line = Ok st' ->
  is_private st' = false /\ (indent st' = ind \/ indent st' = (ind + 2)%Z).
Proof.
  unfold classify.
  set (l := match lookup special_cases (rstrip line) with
            | Some v => v
            | None => rstrip line
            end).
  intros H.
  repeat match type of H with
         | context [if ?c then _ else _] => destruct c
         end;
    try destruct (function_name _ _) as [name cached];
    try destruct (comment _) as [d|e];
    simpl in H; try discriminate H;
    injection H as <-; simpl; auto.
Qed.

Lemma scan_line_indent_ok st line st' :
  indent_ok (indent st) -> scan_line st line = Ok st' ->
  indent_ok (indent st').
Proof.
  intros Hok. unfold scan_line.
  pose proof (unwind_loop_indent_ok (Z.to_nat (indent st)) line
                (is_private st) Hok) as Hu.
  fold (unwind line (indent st) (is_private st)) in Hu.
  destruct (unwind line (indent st) (is_private st)) as [ind priv].
  simpl in Hu.
  destruct (visibility (slice_from line ind) priv).
  - intros H; injection H as <-. exact Hu.
  - intros H. apply classify_result in H as [_ [->| ->]].
    + exact Hu.
    + now apply indent_ok_add2.
Qed.

Lemma scan_lines_indent_ok lines : forall st st',
  indent_ok (indent st) -> scan_lines st lines = Ok st' ->
  indent_ok (indent st').
Proof.
  induction lines as [|line lines IH]; intros st st' Hok H; simpl in H.
  - injection H as <-. exact Hok.
  - destruct (scan_line st line) as [st1|e] eqn:E; simpl in H;
      [|discriminate].
    apply (IH st1 st'); [|exact H].
    now apply (scan_line_indent_ok st line).
Qed.

(** C8.  After any prefix of any line sequence has been processed from the
    initial state, the tracked indent is a non-negative even integer. *)
Theorem indent_invariant lines n st :
  scan_lines scan_init (firstn n lines) = Ok st ->
  (0 <= indent st)%Z /\ Z.even (indent st) = true.
Proof.
  intros H.
  apply (scan_lines_indent_ok (firstn n lines) scan_init); [|exact H].
  split; [simpl; lia|reflexivity].
Qed.

Lemma indent_invariant_witness :
  (0 <= 2)%Z /\ Z.even 2 = true.
Proof.
  exact (@indent_invariant
           [fileline "class Foo {"; fileline " public:";
            fileline "  int Size();"; fileline "};"]
           3 (mk_scan 2 [] [] false
                (emit 0 (class_template (str "Foo") [])
                 ++ emit 2 (method_template (str "int Size()") [])))
           eq_refl).
Defined.

(** C2 (counterexample).  For the single line [typedef int MyInt;] no line
    of the output contains [.. cpp:type:: MyInt]. *)
Lemma typedef_header_is_not_the_bare_alias :
  ~ (exists out l,
        extract_file [fileline "typedef int MyInt;"] = Ok out
        /\ In l out
        /\ contains (str ".. cpp:type:: MyInt") l = true).
Proof.
  intros (out & l & Hrun & Hin & Hl).
  vm_compute in Hrun. injection Hrun as <-.
  simpl in Hin.
  repeat destruct Hin as [<-|Hin]; try (vm_compute in Hl; discriminate Hl).
  contradiction.
Qed.

(** C2 (amended).  For the single line [typedef int MyInt;], with or
    without its line feed, the output is the type entry whose header line
    is [.. cpp:type:: int MyInt]: the name is all the text after
    [typedef ], the aliased type included. *)
Theorem typedef_header_keeps_aliased_type :
  extract_file [fileline "typedef int MyInt;"]
  = Ok [[nl]; fileline ".. cpp:type:: int MyInt"; [nl]; [nl]]
  /\ extract_file [str "typedef int MyInt;"]
     = Ok [[nl]; fileline ".. cpp:type:: int MyInt"; [nl]; [nl]].
Proof. split; vm_compute; reflexivity. Qed.

Lemma lstrip_head s :
  match lstrip s with
  | [] => True
  | c :: _ => isspace c = false
  end.
Proof.
  induction s as [|c s IH]; simpl; [exact I|].
  destruct (isspace c) eqn:E; [exact IH|exact E].
Qed.

(** A stripped string never starts with a space, so the tag [ *] of
    [COMMENT_TAGS] matches no line. *)
Lemma strip_never_continuation line :
  startswith (strip line) (str " *") = false.
Proof.
  unfold strip. pose proof (lstrip_head (rstrip line)) as H.
  destruct (lstrip (rstrip line)) as [|c r]; [reflexivity|].
  cbn [str list_ascii_of_string startswith].
  destruct (Ascii.eqb_spec " " c) as [<-|]; [discriminate H|reflexivity].
Qed.

(** A line that reaches classification and whose trimmed text starts with
    [//] or [/*] is appended to the cache, and nothing is written. *)
Lemma comment_line_cached ind st line :
  let l := match lookup special_cases (rstrip line) with
           | Some v => v
           | None => rstrip line
           end in
  startswith_any (strip l) [str "//"; str "/*"] = true ->
  classify ind st line
  = Ok (mk_scan ind (cached_lines st ++ [l]) (partial_function st) false
          (out_file st)).
Proof.
  intros l H. unfold classify. fold l.
  assert (Ht : startswith_any (strip l) COMMENT_TAGS = true).
  { unfold startswith_any, COMMENT_TAGS in *. cbn [existsb] in *.
    rewrite orb_false_r in H. rewrite orb_assoc, H. reflexivity. }
  now rewrite Ht.
Qed.

(** C3 (code defect).  A continuation line is not cached: after
    [/* start] the cache holds that line, and the next line
    [ * more text] empties the cache instead of joining it; the test on
    the stripped line can never see the tag [ *]. *)
Theorem continuation_line_not_cached :
  scan_lines scan_init [fileline "/* start"]
  = Ok (mk_scan 0 [str "/* start"] [] false [])
  /\ scan_lines scan_init [fileline "/* start"; fileline " * more text"]
     = Ok (mk_scan 0 [] [] false [])
  /\ scan_line scan_init (fileline " * more text")
     = Ok (mk_scan 0 [] [] false [])
  /\ (forall line, startswith (strip line) (str " *") = false).
Proof.
  split; [|split; [|split]]; try (vm_compute; reflexivity).
  exact strip_never_continuation.
Qed.

Lemma classify_public ind st line st' :
  classify ind st line = Ok st' -> is_private st' = false.
Proof. intros H. now apply classify_result in H. Qed.

(** C7 (counterexample).  At indent 0 the line [private:] is its own
    stripped line and begins with [private:], yet the scanner stays
    public. *)
Lemma private_label_at_margin_stays_public :
  slice_from (fileline "private:") 0 = fileline "private:"
  /\ startswith (fileline "private:") (str "private:") = true
  /\ ~ (exists st,
           scan_line scan_init (fileline "private:") = Ok st
           /\ is_private st = true).
Proof.
  split; [reflexivity|split; [reflexivity|]].
  intros (st & Hrun & Hp).
  vm_compute in Hrun. injection Hrun as <-. discriminate Hp.
Qed.

(** C7 (amended).  With [l] the line after the unwind loop and the indent
    strip: if [l] begins with [ublic:] the scanner becomes public, else if
    [l] begins with [rivate:] or [rotected:] it becomes non-public, else
    the flag is as the unwind loop left it.  These are the labels with
    their first letter cut off, as the strip leaves a label indented one
    column less than the tracked indent; a stripped line that begins with
    the whole word [private:], [protected:] or [public:] does not change
    the flag. *)
Theorem visibility_labels st line st' :
  scan_line st line = Ok st' ->
  let u := unwind line (indent st) (is_private st) in
  let l := slice_from line (fst u) in
  is_private st'
  = (if startswith l (str "ublic:") then false
     else if startswith l (str "rivate:") || startswith l (str "rotected:")
          then true
          else snd u)
  /\ (startswith l (str "private:") || startswith l (str "protected:")
      || startswith l (str "public:") = true ->
      is_private st' = snd u).
Proof.
  intros H u l.
  assert (Hv : is_private st' = visibility l (snd u)).
  { unfold scan_line in H. fold u in H.
    destruct u as [ind priv]. cbn [fst snd] in *. fold l in H.
    destruct (visibility l priv) eqn:E.
    - injection H as <-. reflexivity.
    - now apply classify_public in H. }
  rewrite Hv. unfold visibility, startswith_any. cbn [existsb].
  rewrite orb_false_r. split; [reflexivity|].
  intros Hp.
  destruct l as [|c l']; [discriminate Hp|].
  cbn [str list_ascii_of_string startswith] in *.
  destruct (Ascii.eqb_spec "p" c) as [<-|Hc].
  - reflexivity.
  - cbn [andb orb] in Hp. discriminate Hp.
Qed.

Lemma visibility_labels_witness :
  is_private (mk_scan 0 [] [] false []) = false
  /\ (startswith (fileline "private:") (str "private:") = true ->
      is_private (mk_scan 0 [] [] false []) = false).
Proof.
  pose proof (@visibility_labels scan_init (fileline "private:")
                (mk_scan 0 [] [] false []) eq_refl) as [H1 H2].
  split; [exact H1|].
  intros _. apply H2. reflexivity.
Defined.

Lemma startswith_short s p :
  length s < length p -> startswith s p = false.
Proof.
  intros H. destruct (startswith s p) eqn:E; [|reflexivity].
  apply startswith_length in E. lia.
Qed.

Lemma rstrip_length s : length (rstrip s) <= length s.
Proof.
  induction s as [|c s IH]; simpl; [lia|].
  destruct (rstrip s); [destruct (isspace c)|]; simpl in *; lia.
Qed.

Lemma lstrip_length s : length (lstrip s) <= length s.
Proof.
  induction s as [|c s IH]; simpl; [lia|].
  destruct (isspace c); simpl; lia.
Qed.

Lemma strip_length s : length (strip s) <= length s.
Proof.
  unfold strip. pose proof (lstrip_length (rstrip s)).
  pose proof (rstrip_length s). lia.
Qed.

Lemma slice_from_length s i : length (slice_from s i) <= length s.
Proof.
  unfold slice_from. destruct (i <? 0)%Z; rewrite length_skipn; lia.
Qed.

(** A line of at most one character reaches none of the three branches
    that change the indent. *)
Lemma classify_short ind st line st' :
  length line <= 1 -> classify ind st line = Ok st' ->
  indent st' = ind /\ is_private st' = false.
Proof.
  intros Hlen. unfold classify.
  pose proof (rstrip_length line) as Hr.
  set (r := rstrip line) in *.
  rewrite (lookup_special_cases_none r)
    by (apply startswith_short; simpl; lia).
  pose proof (strip_length r) as Hs.
  unfold startswith_any, COMMENT_TAGS. cbn [existsb].
  rewrite !(startswith_short (strip r)) by (simpl; lia).
  rewrite !(startswith_short r) by (simpl; lia).
  cbn [orb andb].
  intros H.
  repeat match type of H with
         | context [if ?c then _ else _] => destruct c
         end;
    try destruct (function_name _ _) as [name cached];
    try destruct (comment _) as [d|e];
    simpl in H; try discriminate H;
    injection H as <-; simpl; auto.
Qed.

(** C9.  A line of length at most 1 does not enter the unwind loop,
    whatever the indent and whether or not it starts with that many
    spaces: the loop leaves indent and visibility as they are, and so does
    the whole turn of the scanner for that line. *)
Theorem short_line_skips_unwind line :
  length line <= 1 ->
  (forall ind priv,
      unwind_cond line ind = false /\ unwind line ind priv = (ind, priv))
  /\ (forall st st',
         scan_line st line = Ok st' ->
         indent st' = indent st /\ is_private st' = is_private st).
Proof.
  intros Hlen.
  assert (Hu : forall ind priv, unwind line ind priv = (ind, priv)).
  { intros ind priv. rewrite unwind_step.
    now rewrite unwind_cond_short. }
  split.
  - intros ind priv. split; [now apply unwind_cond_short|apply Hu].
  - intros st st'. unfold scan_line. rewrite Hu.
    pose proof (slice_from_length line (indent st)) as Hl.
    set (l := slice_from line (indent st)) in *.
    assert (Hv : visibility l (is_private st) = is_private st).
    { unfold visibility, startswith_any. cbn [existsb].
      rewrite !(startswith_short l) by (simpl; lia). reflexivity. }
    rewrite Hv.
    destruct (is_private st) eqn:Ep.
    + intros H; injection H as <-. simpl. auto.
    + intros H. apply classify_short in H; [exact H|lia].
Qed.

Lemma short_line_skips_unwind_witness :
  (forall ind priv,
      unwind_cond [nl] ind = false /\ unwind [nl] ind priv = (ind, priv))
  /\ (forall st st',
         scan_line st [nl] = Ok st' ->
         indent st' = indent st /\ is_private st' = is_private st).
Proof.
  apply (@short_line_skips_unwind [nl]). simpl. lia.
Defined.

(** *** The class branch *)

Lemma rstrip_cons_nonspace c s :
  isspace c = false -> rstrip (c :: s) = c :: rstrip s.
Proof.
  intros H. simpl. rewrite H. destruct (rstrip s); reflexivity.
Qed.

Lemma strip_cons_nonspace c s :
  isspace c = false -> strip (c :: s) = c :: rstrip s.
Proof.
  intros H. unfold strip. rewrite rstrip_cons_nonspace by exact H.
  simpl. now rewrite H.
Qed.

(** Removing a one-character marker is a filter. *)
Lemma replace_char_filter c s :
  replace s [c] [] = filter (fun x => negb (Ascii.eqb c x)) s.
Proof.
  unfold replace.
  induction s as [|x s IH]; [reflexivity|].
  cbn [replace_scan startswith filter length].
  destruct (Ascii.eqb c x); simpl; rewrite IH; reflexivity.
Qed.









(** * Further properties *)

(** ** The regular expression matcher against the words of a pattern *)

Section RegexFacts.

Import Re.

Lemma void_inv w : ~ re_lang Void w.
Proof. intros H; inversion H. Qed.

Lemma eps_inv w : re_lang Eps w -> w = [].
Proof. intros H; inversion H; reflexivity. Qed.

Lemma cls_inv p w : re_lang (Cls p) w -> exists c, w = [c] /\ p c = true.
Proof. intros H; inversion H; subst; eauto. Qed.

Lemma cat_inv r1 r2 w :
  re_lang (Cat r1 r2) w ->
  exists u v, w = u ++ v /\ re_lang r1 u /\ re_lang r2 v.
Proof. intros H; inversion H; subst; eauto. Qed.

Lemma alt_inv r1 r2 w :
  re_lang (Alt r1 r2) w -> re_lang r1 w \/ re_lang r2 w.
Proof. intros H; inversion H; subst; auto. Qed.

Lemma nullable_lang r : nullable r = true <-> re_lang r [].
Proof.
  induction r as [| |p|r1 IH1 r2 IH2|r1 IH1 r2 IH2|r IH]; simpl.
  - split; [discriminate|intros H; now apply void_inv in H].
  - split; [constructor|reflexivity].
  - split; [discriminate|].
    intros H. apply cls_inv in H as (c & Hc & _). discriminate.
  - rewrite andb_true_iff, IH1, IH2. split.
    + intros [H1 H2]. exact (lang_cat H1 H2).
    + intros H. apply cat_inv in H as (u & v & Huv & H1 & H2).
      symmetry in Huv. apply app_eq_nil in Huv as [-> ->]. auto.
  - rewrite orb_true_iff, IH1, IH2. split.
    + intros [H|H]; [now apply lang_alt_l|now apply lang_alt_r].
    + apply alt_inv.
  - split; [constructor|reflexivity].
Qed.

Lemma cat_lang r1 r2 w : re_lang (cat r1 r2) w <-> re_lang (Cat r1 r2) w.
Proof.
  assert (V1 : forall r u, ~ re_lang (Cat Void r) u).
  { intros r u H. apply cat_inv in H as (a & b & _ & Ha & _).
    now apply void_inv in Ha. }
  assert (V2 : forall r u, ~ re_lang (Cat r Void) u).
  { intros r u H. apply cat_inv in H as (a & b & _ & _ & Hb).
    now apply void_inv in Hb. }
  assert (E1 : forall r u, re_lang r u <-> re_lang (Cat Eps r) u).
  { intros r u. split.
    - intros H. exact (lang_cat lang_eps H).
    - intros H. apply cat_inv in H as (a & b & -> & Ha & Hb).
      apply eps_inv in Ha. subst a. exact Hb. }
  split.
  - destruct r1, r2; simpl; intros H;
      try exact H; try (now apply void_inv in H);
      try (apply (proj1 (E1 _ _)); exact H).
  - destruct r1, r2; simpl; intros H;
      try exact H; try (now apply V1 in H); try (now apply V2 in H);
      try (apply (proj2 (E1 _ _)) in H; exact H).
Qed.

Lemma alt_lang r1 r2 w : re_lang (alt r1 r2) w <-> re_lang (Alt r1 r2) w.
Proof.
  split.
  - destruct r1, r2; simpl; intros H; try exact H;
      try (now apply void_inv in H);
      try (now apply lang_alt_l); try (now apply lang_alt_r).
  - destruct r1, r2; simpl; intros H; try exact H;
      apply alt_inv in H as [H|H];
      try exact H; try (now apply void_inv in H).
Qed.

Lemma star_cons_inv r c w :
  re_lang (Star r) (c :: w) ->
  exists u v, w = u ++ v /\ re_lang r (c :: u) /\ re_lang (Star r) v.
Proof.
  intros H. remember (Star r) as sr eqn:Hsr. remember (c :: w) as cw eqn:Hcw.
  revert w Hcw.
  induction H as [| | | | | |r0 u v Hu _ Hv IHv]; intros w Hcw;
    try discriminate.
  injection Hsr as ->.
  destruct u as [|a u].
  - simpl in Hcw. now apply IHv.
  - injection Hcw as -> <-. exists u, v. auto.
Qed.

Lemma deriv_lang c r : forall w, re_lang (deriv c r) w <-> re_lang r (c :: w).
Proof.
  induction r as [| |p|r1 IH1 r2 IH2|r1 IH1 r2 IH2|r IH]; intros w; simpl.
  - split; intros H; now apply void_inv in H.
  - split; intros H; [now apply void_inv in H|].
    apply eps_inv in H. discriminate.
  - destruct (p c) eqn:E; split; intros H.
    + apply eps_inv in H. subst w. now constructor.
    + apply cls_inv in H as (x & Hx & _). injection Hx as <- ->.
      constructor.
    + now apply void_inv in H.
    + apply cls_inv in H as (x & Hx & Hp). injection Hx as <- ->.
      congruence.
  - assert (L : re_lang (cat (deriv c r1) r2) w
                <-> exists u v, w = u ++ v /\ re_lang r1 (c :: u)
                                /\ re_lang r2 v).
    { rewrite cat_lang. split.
      - intros H. apply cat_inv in H as (u & v & -> & Hu & Hv).
        exists u, v. rewrite <- IH1. auto.
      - intros (u & v & -> & Hu & Hv). apply lang_cat; [|exact Hv].
        now apply IH1. }
    assert (R : re_lang (Cat r1 r2) (c :: w)
                <-> (exists u v, w = u ++ v /\ re_lang r1 (c :: u)
                                 /\ re_lang r2 v)
                    \/ (re_lang r1 [] /\ re_lang r2 (c :: w))).
    { split.
      - intros H. apply cat_inv in H as (u & v & Huv & Hu & Hv).
        destruct u as [|a u].
        + right. simpl in Huv. subst v. auto.
        + left. injection Huv as <- ->. exists u, v. auto.
      - intros [(u & v & -> & Hu & Hv)|[Hn Hv]].
        + exact (lang_cat Hu Hv).
        + exact (lang_cat Hn Hv). }
    rewrite R. destruct (nullable r1) eqn:N.
    + rewrite alt_lang. split.
      * intros H. apply alt_inv in H as [H|H].
        -- left. now apply L.
        -- right. split; [now apply nullable_lang|now apply IH2].
      * intros [H|[_ H]].
        -- apply lang_alt_l. now apply L.
        -- apply lang_alt_r. now apply IH2.
    + rewrite L. split; [auto|].
      intros [H|[Hn _]]; [exact H|].
      apply nullable_lang in Hn. congruence.
  - rewrite alt_lang. split.
    + intros H. apply alt_inv in H as [H|H].
      * apply lang_alt_l. now apply IH1.
      * apply lang_alt_r. now apply IH2.
    + intros H. apply alt_inv in H as [H|H].
      * apply lang_alt_l. now apply IH1.
      * apply lang_alt_r. now apply IH2.
  - rewrite cat_lang. split.
    + intros H. apply cat_inv in H as (u & v & -> & Hu & Hv).
      apply IH in Hu. exact (lang_star_cons Hu Hv).
    + intros H. apply star_cons_inv in H as (u & v & -> & Hu & Hv).
      apply lang_cat; [now apply IH|exact Hv].
Qed.

Lemma match_prefix_lang s : forall r,
  match_prefix r s = true <-> exists p t, s = p ++ t /\ re_lang r p.
Proof.
  induction s as [|c s IH]; intros r; simpl.
  - rewrite orb_false_r, nullable_lang. split.
    + intros H. now exists [], [].
    + intros (p & t & Hpt & H). symmetry in Hpt.
      apply app_eq_nil in Hpt as [-> _]. exact H.
  - rewrite orb_true_iff, nullable_lang, IH. split.
    + intros [H|(p & t & -> & H)].
      * now exists [], (c :: s).
      * exists (c :: p), t. split; [reflexivity|now apply deriv_lang].
    + intros (p & t & Hpt & H). destruct p as [|a p].
      * now left.
      * right. injection Hpt as <- ->. exists p, t.
        split; [reflexivity|now apply deriv_lang].
Qed.

Lemma search_lang r s :
  search r s = true <-> exists a p t, s = a ++ p ++ t /\ re_lang r p.
Proof.
  induction s as [|c s IH]; cbn [search].
  - rewrite orb_false_r, match_prefix_lang. split.
    + intros (p & t & Hs & H). now exists [], p, t.
    + intros (a & p & t & Hs & H). symmetry in Hs.
      apply app_eq_nil in Hs as [-> Hs]. exists p, t. auto.
  - rewrite orb_true_iff, IH, match_prefix_lang. split.
    + intros [(p & t & -> & H)|(a & p & t & -> & H)].
      * now exists [], p, t.
      * now exists (c :: a), p, t.
    + intros (a & p & t & Hs & H). destruct a as [|x a].
      * left. now exists p, t.
      * right. injection Hs as <- ->. now exists a, p, t.
Qed.

End RegexFacts.

(** ** Python list indexing from the end *)

Section ListFacts.

Context {A : Type}.
Implicit Types (q m : list A) (x y l : A).

Lemma getitem_neg_ok q (i : Z) :
  (- Z.of_nat (length q) <= i < 0)%Z -> exists x, getitem q i = Ok x.
Proof.
  intros Hi. unfold getitem.
  destruct (Z.ltb_spec i 0); [|lia].
  destruct (Z.ltb_spec (i + Z.of_nat (length q)) 0); [lia|].
  destruct (Z.leb_spec (Z.of_nat (length q)) (i + Z.of_nat (length q)));
    [lia|].
  cbn [orb].
  destruct (nth_error q (Z.to_nat (i + Z.of_nat (length q)))) eqn:E.
  - eauto.
  - apply nth_error_None in E. lia.
Qed.

Lemma getitem_neg_raise q (i : Z) :
  (i < - Z.of_nat (length q))%Z -> getitem q i = Raise IndexError.
Proof.
  intros Hi. unfold getitem.
  destruct (Z.ltb_spec i 0); [|lia].
  destruct (Z.ltb_spec (i + Z.of_nat (length q)) 0); [|lia].
  reflexivity.
Qed.

Lemma snoc_last_index m l :
  Z.to_nat (-1 + Z.of_nat (length (m ++ [l]))) = length m.
Proof. rewrite length_app. change (length [l]) with 1. lia. Qed.

Lemma getitem_last m l : getitem (m ++ [l]) (-1) = Ok l.
Proof.
  unfold getitem. cbn [Z.ltb Z.compare].
  pose proof (snoc_last_index m l) as Hi.
  destruct (Z.ltb_spec (-1 + Z.of_nat (length (m ++ [l]))) 0).
  { rewrite length_app in *. change (length [l]) with 1 in *. lia. }
  destruct (Z.leb_spec (Z.of_nat (length (m ++ [l])))
              (-1 + Z.of_nat (length (m ++ [l])))); [lia|].
  cbn [orb]. rewrite Hi, nth_error_app2, Nat.sub_diag by lia.
  reflexivity.
Qed.

Lemma setitem_last m l y : setitem (m ++ [l]) (-1) y = Ok (m ++ [y]).
Proof.
  unfold setitem. cbn [Z.ltb Z.compare].
  pose proof (snoc_last_index m l) as Hi.
  destruct (Z.ltb_spec (-1 + Z.of_nat (length (m ++ [l]))) 0).
  { rewrite length_app in *. change (length [l]) with 1 in *. lia. }
  destruct (Z.leb_spec (Z.of_nat (length (m ++ [l])))
              (-1 + Z.of_nat (length (m ++ [l])))); [lia|].
  cbn [orb]. rewrite Hi.
  rewrite firstn_app, firstn_all, Nat.sub_diag. cbn [firstn].
  rewrite skipn_all2
    by (rewrite length_app; change (length [l]) with 1; lia).
  now rewrite app_nil_r.
Qed.

Lemma insert_last m l x : insert (m ++ [l]) (-1) x = m ++ [x; l].
Proof.
  unfold insert. cbn [Z.ltb Z.compare].
  pose proof (snoc_last_index m l) as Hi.
  rewrite Z.max_r
    by (rewrite length_app; change (length [l]) with 1; lia).
  rewrite Hi.
  rewrite firstn_app, firstn_all, Nat.sub_diag. cbn [firstn].
  rewrite skipn_app, skipn_all, Nat.sub_diag. cbn [skipn app].
  now rewrite app_nil_r.
Qed.

End ListFacts.

(** ** The formatter, line by line *)

Lemma pending_start p0 l : pending p0 l (p0 ++ [l]).
Proof. exists []. now rewrite app_nil_r. Qed.

Lemma pending_insert p0 l q x :
  pending p0 l q -> inserted x -> pending p0 l (insert q (-1) x).
Proof.
  intros (ins & -> & Hins) Hx. exists (ins ++ [x]). split.
  - rewrite insert_last. rewrite <- !app_assoc. reflexivity.
  - apply Forall_app. auto.
Qed.

Lemma pending_length p0 l q :
  pending p0 l q -> length p0 + 1 <= length q.
Proof.
  intros (ins & -> & _). rewrite !length_app. simpl. lia.
Qed.

Lemma pending_separate p0 l q :
  pending p0 l q -> exists q', separate q = Ok q' /\ pending p0 l q'.
Proof.
  intros Hq. unfold separate.
  destruct (Nat.ltb_spec 1 (length q)) as [Hlen|Hlen].
  - destruct (@getitem_neg_ok _ q (-2)) as (prev & ->); [lia|].
    cbn [bind]. destruct (truthy prev).
    + eexists; split; [reflexivity|].
      apply pending_insert; [exact Hq|now left].
    + eauto.
  - eauto.
Qed.

Lemma pending_appended p0 l q : pending p0 l q -> appended p0 l q.
Proof. intros (ins & -> & Hins). exists ins, l. auto. Qed.

Lemma pending_ensure b p0 l q :
  pending p0 l q ->
  exists q', ensure_indent b q l = Ok q' /\ appended p0 l q'.
Proof.
  intros Hq. unfold ensure_indent.
  destruct (b && negb (startswith l (str "  "))).
  - destruct Hq as (ins & -> & Hins).
    rewrite getitem_last. cbn [bind]. rewrite setitem_last.
    eexists; split; [reflexivity|].
    exists ins, (str "  " ++ l). auto.
  - eexists; split; [reflexivity|now apply pending_appended].
Qed.

(** What [detect_code] does to the list, and the one way it raises. *)
Lemma detect_code_cases inside p0 l q :
  pending p0 l q ->
  match detect_code inside q l with
  | Ok st' => appended p0 l (processed st')
  | Raise _ =>
      length q < 3 /\ endswith l (str ";") = true
      /\ startswith l (str "  ") = false
  end.
Proof.
  intros Hq. unfold detect_code. destruct inside.
  - set (keep := startswith l (str " ") || negb (truthy l)
                 || endswith l (str ";")).
    assert (Hq1 : pending p0 l (if keep then q else insert q (-1) [])).
    { destruct keep; [exact Hq|]. apply pending_insert; [exact Hq|now left]. }
    destruct (pending_ensure keep Hq1) as (q' & -> & Hq').
    exact Hq'.
  - unfold opens_block.
    destruct (startswith l (str "  ")) eqn:Hind;
      [|destruct (endswith l (str ";")) eqn:Hsemi].
    + cbn [bind].
      destruct (pending_separate Hq) as (q1 & -> & Hq1). cbn [bind].
      assert (Hq3 : pending p0 l
                      (insert (insert q1 (-1) (str ".. code-block:: cpp"))
                         (-1) [])).
      { apply pending_insert; [|now left].
        apply pending_insert; [exact Hq1|now right]. }
      destruct (pending_ensure true Hq3) as (q' & -> & Hq'). exact Hq'.
    + destruct (Nat.ltb_spec (length q) 3) as [Hlen|Hlen].
      * rewrite (@getitem_neg_raise _ q (-3)) by lia. cbn [bind]. auto.
      * destruct (@getitem_neg_ok _ q (-3)) as (before & ->); [lia|].
        cbn [bind].
        assert (Hopen :
          forall q1, pending p0 l q1 ->
            match (p4 <- ensure_indent true
                           (insert (insert q1 (-1)
                                      (str ".. code-block:: cpp")) (-1) [])
                           l ;;
                   Ok (mk_block true false p4)) with
            | Ok st' => appended p0 l (processed st')
            | Raise _ => False
            end).
        { intros q1 Hq1.
          assert (Hq3 : pending p0 l
                          (insert (insert q1 (-1)
                                     (str ".. code-block:: cpp")) (-1) [])).
          { apply pending_insert; [|now left].
            apply pending_insert; [exact Hq1|now right]. }
          destruct (pending_ensure true Hq3) as (q' & -> & Hq'). exact Hq'. }
        destruct (endswith before (str ":")).
        -- destruct (pending_separate Hq) as (q1 & -> & Hq1). cbn [bind].
           specialize (Hopen q1 Hq1).
           destruct (ensure_indent true _ l); cbn [bind] in *;
             [exact Hopen|contradiction].
        -- destruct (startswith l (str " ") && true).
           ++ destruct (pending_separate Hq) as (q1 & -> & Hq1). cbn [bind].
              specialize (Hopen q1 Hq1).
              destruct (ensure_indent true _ l); cbn [bind] in *;
                [exact Hopen|contradiction].
           ++ destruct (pending_ensure false Hq) as (q' & -> & Hq').
              exact Hq'.
    + cbn [bind]. rewrite andb_false_r.
      destruct (pending_ensure false Hq) as (q' & -> & Hq'). exact Hq'.
Qed.

(** One turn of the loop either appends the line, behind inserted lines,
    or raises on the third-last entry. *)
Lemma detect_line_cases st l :
  match detect_line st l with
  | Ok st' => appended (processed st) l (processed st')
  | Raise _ =>
      length (processed st) < 2 /\ endswith l (str ";") = true
      /\ startswith l (str "  ") = false
  end.
Proof.
  unfold detect_line.
  pose proof (pending_start (processed st) l) as Hp.
  destruct (inside_list st &&
            (startswith l (str " ") || (length l <=? 1)
             || contains (str ". ") (slice_to l 5)
             || contains (str ") ") (slice_to l 5))).
  - now apply pending_appended.
  - assert (Hp1 : pending (processed st) l
                    (if inside_list st
                     then insert (processed st ++ [l]) (-1) []
                     else processed st ++ [l])).
    { destruct (inside_list st); [|exact Hp].
      apply pending_insert; [exact Hp|now left]. }
    destruct (startswith_any l list_start_tags).
    + destruct (pending_separate Hp1) as (q1 & -> & Hq1). cbn [bind].
      now apply pending_appended.
    + pose proof (detect_code_cases (inside_block st) Hp1) as Hc.
      destruct (detect_code _ _ l); [exact Hc|].
      destruct Hc as (Hlen & Hsemi & Hind). split; [|auto].
      apply pending_length in Hp1. lia.
Qed.

Lemma appended_length p0 l q :
  appended p0 l q -> length p0 + 1 <= length q.
Proof.
  intros (ins & l' & -> & _). rewrite !length_app. simpl. lia.
Qed.

Lemma detect_lines_app a : forall st b,
  detect_lines st (a ++ b)
  = (st' <- detect_lines st a ;; detect_lines st' b).
Proof.
  induction a as [|l a IH]; intros st b; simpl.
  - reflexivity.
  - destruct (detect_line st l); simpl; [apply IH|reflexivity].
Qed.

Lemma detect_lines_length lines : forall st st',
  detect_lines st lines = Ok st' ->
  length (processed st) + length lines <= length (processed st').
Proof.
  induction lines as [|l lines IH]; intros st st' H; simpl in H.
  - injection H as <-. simpl. lia.
  - pose proof (detect_line_cases st l) as Hc.
    destruct (detect_line st l) as [st1|e]; simpl in H; [|discriminate].
    apply appended_length in Hc. apply IH in H. simpl. lia.
Qed.

(** From two processed lines on, nothing raises. *)
Lemma detect_lines_total lines : forall st,
  2 <= length (processed st) -> exists st', detect_lines st lines = Ok st'.
Proof.
  induction lines as [|l lines IH]; intros st Hlen; simpl.
  - eauto.
  - pose proof (detect_line_cases st l) as Hc.
    destruct (detect_line st l) as [st1|e]; simpl.
    + apply IH. apply appended_length in Hc. lia.
    + destruct Hc as (Hc & _). lia.
Qed.

Lemma strip_passes_shorter ms : forall s,
  Forall (fun m => m <> []) ms ->
  Exists (fun m => contains m s = true) ms ->
  length (fold_left (fun s m => replace s m []) ms s) < length s.
Proof.
  induction ms as [|m ms IH]; intros s Hne Hex.
  - inversion Hex.
  - inversion Hne as [|? ? Hm Hms]; subst. simpl.
    destruct (contains m s) eqn:E.
    + pose proof (replace_shorter s Hm E).
      pose proof (strip_passes_length (replace s m []) Hms). lia.
    + rewrite (replace_absent s m [] E). apply IH; [exact Hms|].
      inversion Hex; subst; [congruence|assumption].
Qed.

(** X1.  Step 1 never lengthens a line: a line without [//], [/*] and
    [ *] is returned as it is, and a line with one of them comes back
    strictly shorter. *)
Theorem strip_comment_tags_shortens line :
  length (strip_comment_tags line) <= length line
  /\ (contains (str "//") line = false ->
      contains (str "/*") line = false ->
      contains (str " *") line = false ->
      strip_comment_tags line = line)
  /\ (contains (str "//") line = true \/ contains (str "/*") line = true
      \/ contains (str " *") line = true ->
      length (strip_comment_tags line) < length line).
Proof.
  assert (Hne : Forall (fun m => m <> []) comment_markers).
  { apply Forall_forall. intros m. apply comment_markers_nonempty. }
  assert (P : forall m q, contains m line = false ->
                          contains (m ++ q) line = false).
  { intros m q Hm. destruct (contains (m ++ q) line) eqn:E; [|reflexivity].
    now rewrite (contains_prefix _ _ _ E) in Hm. }
  rewrite strip_comment_tags_fold. split; [|split].
  - now apply strip_passes_length.
  - intros H1 H2 H3. apply strip_passes_fixed; [exact Hne|].
    unfold comment_markers. repeat constructor; try assumption.
    + exact (P (str "//") (str " ") H1).
    + exact (P (str "/*") (str " ") H2).
    + exact (P (str " *") (str " ") H3).
  - intros H. apply strip_passes_shorter; [exact Hne|].
    unfold comment_markers.
    destruct H as [H|[H|H]].
    + apply Exists_cons_tl, Exists_cons_hd. exact H.
    + do 3 apply Exists_cons_tl. apply Exists_cons_hd. exact H.
    + do 5 apply Exists_cons_tl. apply Exists_cons_hd. exact H.
Qed.

Lemma strip_comment_tags_shortens_witness :
  length (strip_comment_tags (str "// Does X.")) < length (str "// Does X.")
  /\ strip_comment_tags (str "Does X.") = str "Does X.".
Proof.
  split.
  - apply (proj2 (proj2 (strip_comment_tags_shortens (str "// Does X.")))).
    left. reflexivity.
  - apply (proj1 (proj2 (strip_comment_tags_shortens (str "Does X."))));
      reflexivity.
Defined.

Lemma detect_line_plain p l :
  plain l ->
  detect_line (mk_block false false p) l
  = Ok (mk_block false false (p ++ [l])).
Proof.
  intros (Hlist & Hind & Hsemi).
  unfold detect_line. cbn [inside_list inside_block processed andb].
  rewrite Hlist. unfold detect_code, opens_block.
  rewrite Hind, Hsemi. cbn [bind]. rewrite andb_false_r.
  unfold ensure_indent. reflexivity.
Qed.

Lemma detect_lines_plain lines : forall p,
  Forall plain lines ->
  detect_lines (mk_block false false p) lines
  = Ok (mk_block false false (p ++ lines)).
Proof.
  induction lines as [|l lines IH]; intros p H; simpl.
  - now rewrite app_nil_r.
  - inversion H as [|? ? Hl Hrest]; subst.
    rewrite (detect_line_plain p Hl). cbn [bind].
    rewrite (IH (p ++ [l]) Hrest). now rewrite <- app_assoc.
Qed.

(** X2.  Lines of which none opens a list, starts with two spaces or
    ends with a semicolon pass block detection unchanged: nothing is
    inserted, nothing indented, and [comment] only puts two spaces before
    each stripped line. *)
Theorem plain_lines_unchanged lines :
  Forall plain lines ->
  detect_block lines = Ok lines
  /\ (Forall plain (map strip_comment_tags lines) ->
      comment lines
      = Ok (join [nl]
              (map (fun l => str "  " ++ strip_comment_tags l) lines))).
Proof.
  assert (G : forall ls, Forall plain ls -> detect_block ls = Ok ls).
  { intros ls H. unfold detect_block, detect_init.
    now rewrite (detect_lines_plain [] H). }
  intros H. split; [now apply G|].
  intros Hs. unfold comment. rewrite (G _ Hs). cbn [bind].
  now rewrite map_map.
Qed.

Lemma plain_lines_unchanged_witness :
  detect_block [str "Does X."; str "Returns Y."]
  = Ok [str "Does X."; str "Returns Y."].
Proof.
  apply (@plain_lines_unchanged [str "Does X."; str "Returns Y."]).
  repeat constructor.
Defined.

(** X3.  [detect_block] can raise on its first two lines only: when it
    raises on a sequence of lines, it raises on the first two of them
    already. *)
Theorem detect_block_raises_early lines e :
  detect_block lines = Raise e ->
  detect_block (firstn 2 lines) = Raise e.
Proof.
  unfold detect_block. intros H.
  rewrite <- (firstn_skipn 2 lines) in H at 1.
  rewrite detect_lines_app in H.
  destruct (detect_lines detect_init (firstn 2 lines)) as [st|e'] eqn:E;
    cbn [bind] in *; [exfalso|exact H].
  destruct (le_lt_dec 2 (length lines)) as [Hlen|Hlen].
  - apply detect_lines_length in E.
    rewrite length_firstn, Nat.min_l in E by exact Hlen.
    destruct (@detect_lines_total (skipn 2 lines) st) as (st' & Hst');
      [lia|].
    rewrite Hst' in H. discriminate H.
  - rewrite skipn_all2 in H by lia. discriminate H.
Qed.

Lemma detect_block_raises_early_witness :
  detect_block (firstn 2 [str "a"; str "x;"; str "b"]) = Raise IndexError.
Proof.
  apply (@detect_block_raises_early [str "a"; str "x;"; str "b"]).
  vm_compute. reflexivity.
Defined.

Lemma detect_lines_safe lines : forall st k,
  2 <= length (processed st) + k ->
  Forall (fun l => endswith l (str ";") = false
                   \/ startswith l (str "  ") = true) (firstn k lines) ->
  exists st', detect_lines st lines = Ok st'.
Proof.
  induction lines as [|l lines IH]; intros st k Hk Hsafe; simpl.
  - eauto.
  - pose proof (detect_line_cases st l) as Hc.
    destruct (detect_line st l) as [st1|e]; simpl.
    + apply appended_length in Hc.
      destruct k as [|k].
      * apply (IH st1 0); [lia|constructor].
      * apply (IH st1 k); [lia|].
        cbn [firstn] in Hsafe. now inversion Hsafe.
    + destruct Hc as (Hlen & Hsemi & Hind).
      destruct k as [|k]; [lia|].
      cbn [firstn] in Hsafe.
      inversion Hsafe as [|? ? [Hl|Hl] _]; subst; congruence.
Qed.

(** X4.  When each of the first two lines either does not end with a
    semicolon or starts with two spaces, [detect_block] returns a list;
    the lines after the second never matter for that. *)
Theorem detect_block_safe_start lines :
  Forall (fun l => endswith l (str ";") = false
                   \/ startswith l (str "  ") = true) (firstn 2 lines) ->
  exists out, detect_block lines = Ok out.
Proof.
  intros H. unfold detect_block.
  destruct (@detect_lines_safe lines detect_init 2) as (st & ->);
    [simpl; lia|exact H|].
  cbn [bind]. eauto.
Qed.

Lemma detect_block_safe_start_witness :
  exists out, detect_block [str "Example:"; str "  f();"; str "x;"] = Ok out.
Proof.
  apply (@detect_block_safe_start [str "Example:"; str "  f();"; str "x;"]).
  cbn [firstn].
  apply Forall_cons; [left; reflexivity|].
  apply Forall_cons; [right; reflexivity|].
  apply Forall_nil.
Defined.

Lemma kept_app ls os : kept ls os ->
  forall ls' os', kept ls' os' -> kept (ls ++ ls') (os ++ os').
Proof.
  induction 1 as [|l ls os _ IH|l ls os _ IH|x ls os Hx _ IH];
    intros ls' os' H'.
  - exact H'.
  - simpl. apply kept_same. now apply IH.
  - change ((l :: ls) ++ ls') with (l :: (ls ++ ls')).
    change (((str "  " ++ l) :: os) ++ os')
      with ((str "  " ++ l) :: (os ++ os')).
    apply kept_indent. now apply IH.
  - simpl. apply kept_inserted; [exact Hx|now apply IH].
Qed.

Lemma kept_inserted_all ins : Forall inserted ins -> kept [] ins.
Proof.
  induction 1 as [|x ins Hx _ IH]; [constructor|].
  now apply kept_inserted.
Qed.

Lemma kept_appended ls p0 l q :
  kept ls p0 -> appended p0 l q -> kept (ls ++ [l]) q.
Proof.
  intros Hk (ins & l' & -> & Hins & Hl').
  apply kept_app.
  - rewrite <- (app_nil_r ls). apply kept_app; [exact Hk|].
    now apply kept_inserted_all.
  - destruct Hl' as [->| ->].
    + apply kept_same. constructor.
    + apply kept_indent. constructor.
Qed.

Lemma detect_lines_kept lines : forall st st' ls,
  kept ls (processed st) -> detect_lines st lines = Ok st' ->
  kept (ls ++ lines) (processed st').
Proof.
  induction lines as [|l lines IH]; intros st st' ls Hk H; simpl in H.
  - injection H as <-. now rewrite app_nil_r.
  - pose proof (detect_line_cases st l) as Hc.
    destruct (detect_line st l) as [st1|e]; simpl in H; [|discriminate].
    replace (ls ++ l :: lines) with ((ls ++ [l]) ++ lines)
      by (now rewrite <- app_assoc).
    apply (IH st1 st'); [|exact H].
    now apply kept_appended with (processed st).
Qed.

(** X5.  Block detection loses and reorders nothing: the list it returns
    is the input lines in their order, each one either as it is or behind
    two added spaces, with only empty lines and [.. code-block:: cpp]
    lines put in between. *)
Theorem detect_block_keeps_lines lines out :
  detect_block lines = Ok out -> kept lines out.
Proof.
  unfold detect_block. intros H.
  destruct (detect_lines detect_init lines) as [st|e] eqn:E;
    cbn [bind] in H; [|discriminate].
  injection H as <-.
  apply (@detect_lines_kept lines detect_init st []); [constructor|exact E].
Qed.

Lemma detect_block_keeps_lines_witness :
  kept [str "Example:"; []; str " x = 1;"; str "done"]
    [str "Example:"; []; str ".. code-block:: cpp"; []; str "   x = 1;";
     []; str "done"].
Proof.
  apply (@detect_block_keeps_lines
           [str "Example:"; []; str " x = 1;"; str "done"]).
  vm_compute. reflexivity.
Defined.

(** ** The two signature patterns *)

Lemma chr_inv c w : re_lang (Re.chr c) w -> w = [c].
Proof.
  intros H. apply cls_inv in H as (x & -> & Hx).
  apply Ascii.eqb_eq in Hx. now subst.
Qed.

Lemma function_re_partial_ends u :
  re_lang function_re_partial u -> exists u', u = u' ++ ["("%char].
Proof.
  unfold function_re_partial. intros H.
  apply cat_inv in H as (a & w1 & -> & _ & H).
  apply cat_inv in H as (b & w2 & -> & _ & H).
  apply cat_inv in H as (c & w3 & -> & _ & H).
  apply cat_inv in H as (d & w4 & -> & _ & H).
  apply chr_inv in H. subst w4.
  exists (a ++ b ++ c ++ d). now rewrite <- !app_assoc.
Qed.

Lemma function_re_split w :
  re_lang function_re w ->
  exists u b c e,
    w = u ++ b ++ ")"%char :: c ++ [e]
    /\ re_lang function_re_partial u
    /\ (e = ";"%char \/ e = "{"%char).
Proof.
  unfold function_re. intros H.
  apply cat_inv in H as (u & w1 & -> & Hu & H).
  apply cat_inv in H as (b & w2 & -> & _ & H).
  apply cat_inv in H as (p & w3 & -> & Hp & H).
  apply cat_inv in H as (c & w4 & -> & _ & H).
  apply chr_inv in Hp. subst p.
  apply cls_inv in H as (e & -> & He).
  exists u, b, c, e. split; [reflexivity|split; [exact Hu|]].
  apply orb_true_iff in He as [He|He]; apply Ascii.eqb_eq in He; auto.
Qed.

Lemma contains_char_In c s : contains [c] s = true <-> In c s.
Proof.
  induction s as [|x s IH]; simpl.
  - split; [discriminate|contradiction].
  - rewrite orb_true_iff, andb_true_r, IH.
    split; (intros [H|H]; [left|right; exact H]).
    + apply Ascii.eqb_eq in H. auto.
    + apply Ascii.eqb_eq. auto.
Qed.

Lemma function_re_partial_paren s :
  Re.search function_re_partial s = true -> In "("%char s.
Proof.
  intros H. apply search_lang in H as (a & p & t & -> & Hp).
  apply function_re_partial_ends in Hp as (u' & ->).
  rewrite !in_app_iff. right. left. right. now left.
Qed.

Lemma function_re_partial_of_full s :
  Re.search function_re s = true -> Re.search function_re_partial s = true.
Proof.
  intros H. apply search_lang in H as (a & p & t & -> & Hp).
  apply function_re_split in Hp as (u & b & c & e & -> & Hu & _).
  apply search_lang.
  exists a, u, ((b ++ ")"%char :: c ++ [e]) ++ t).
  split; [now rewrite <- !app_assoc|exact Hu].
Qed.



(** ** The scanner, line by line *)

Lemma rstrip_prefix l : exists t, l = rstrip l ++ t.
Proof.
  induction l as [|c l [t IH]]; simpl.
  - now exists [].
  - destruct (rstrip l) as [|x r] eqn:E.
    + destruct (isspace c).
      * now exists (c :: l).
      * exists l. reflexivity.
    + exists t. simpl in *. now rewrite <- IH.
Qed.

Lemma lstrip_suffix l : exists a, l = a ++ lstrip l.
Proof.
  induction l as [|c l [a IH]]; simpl.
  - now exists [].
  - destruct (isspace c).
    + exists (c :: a). simpl. now rewrite <- IH.
    + now exists [].
Qed.

Lemma In_rstrip c l : In c (rstrip l) -> In c l.
Proof.
  destruct (rstrip_prefix l) as [t Ht]. intros H.
  rewrite Ht. apply in_or_app. now left.
Qed.

Lemma In_strip c l : In c (strip l) -> In c l.
Proof.
  unfold strip. destruct (lstrip_suffix (rstrip l)) as [a Ha]. intros H.
  apply In_rstrip. rewrite Ha. apply in_or_app. now right.
Qed.

Lemma startswith_app_r w t p :
  startswith w p = true -> startswith (w ++ t) p = true.
Proof.
  intros H. rewrite (startswith_split _ _ H), <- app_assoc.
  apply startswith_app.
Qed.

Lemma startswith_rstrip l p :
  startswith l p = false -> startswith (rstrip l) p = false.
Proof.
  intros H. destruct (startswith (rstrip l) p) eqn:E; [|reflexivity].
  destruct (rstrip_prefix l) as [t Ht].
  rewrite Ht, (@startswith_app_r _ t _ E) in H. discriminate.
Qed.

(** Every value of [special_cases] is a [//] comment. *)
Lemma special_cases_values_comment l v :
  lookup special_cases l = Some v ->
  startswith_any (strip v) [str "//"; str "/*"] = true.
Proof.
  unfold special_cases. cbn [lookup].
  repeat match goal with
         | |- context [Py.eqb l ?k] =>
             destruct (Py.eqb l k);
             [intros H; injection H as <-; vm_compute; reflexivity|]
         end.
  discriminate.
Qed.

Lemma unwind_zero line priv : unwind line 0 priv = (0%Z, priv).
Proof. reflexivity. Qed.

Lemma slice_from_zero line : slice_from line 0 = line.
Proof. reflexivity. Qed.

(** X7.  While the scanner is non-public, a line that neither triggers
    the unwind loop nor begins, after the indent strip, with [ublic:] is
    skipped with no effect at all: a run of such lines leaves the state,
    cache and output included, as it was. *)
Theorem private_lines_skipped lines st :
  is_private st = true ->
  Forall (fun line =>
            unwind_cond line (indent st) = false
            /\ startswith (slice_from line (indent st)) (str "ublic:")
               = false) lines ->
  scan_lines st lines = Ok st.
Proof.
  intros Hp. induction 1 as [|line lines [Hcond Hpub] _ IH]; simpl.
  - reflexivity.
  - assert (Hline : scan_line st line = Ok st).
    { unfold scan_line. rewrite unwind_step, Hcond, Hp.
      unfold visibility. rewrite Hpub.
      match goal with
      | |- context [if ?c then true else true] => destruct c
      end;
        destruct st as [i c f p o]; cbn [is_private] in Hp; subst p;
        reflexivity. }
    rewrite Hline. exact IH.
Qed.

Lemma private_lines_skipped_witness :
  scan_lines (mk_scan 2 [str "// kept"] [] true [])
    [fileline "  int x_;"; fileline "  // Not shown."; fileline "  void F();"]
  = Ok (mk_scan 2 [str "// kept"] [] true []).
Proof.
  apply (@private_lines_skipped
           [fileline "  int x_;"; fileline "  // Not shown.";
            fileline "  void F();"]
           (mk_scan 2 [str "// kept"] [] true [])).
  - reflexivity.
  - repeat (apply Forall_cons; [split; reflexivity|]). apply Forall_nil.
Defined.

Lemma emit_written ind txt : Forall written_line (emit ind txt).
Proof.
  unfold emit. apply Forall_forall. intros x Hx.
  apply in_map_iff in Hx as (l & <- & _). now exists (spaces ind ++ l).
Qed.

Lemma classify_output ind st line st' :
  classify ind st line = Ok st' ->
  exists w, out_file st' = out_file st ++ w /\ Forall written_line w.
Proof.
  unfold classify.
  set (l := match lookup special_cases (rstrip line) with
            | Some v => v
            | None => rstrip line
            end).
  intros H.
  repeat match type of H with
         | context [if ?c then _ else _] => destruct c
         end;
    try destruct (function_name _ _) as [name cached];
    try destruct (comment _) as [d|e];
    simpl in H; try discriminate H;
    injection H as <-; simpl;
    first [ eexists; split; [reflexivity|apply emit_written]
          | exists []; split; [now rewrite app_nil_r|constructor] ].
Qed.

Lemma scan_line_output st line st' :
  scan_line st line = Ok st' ->
  exists w, out_file st' = out_file st ++ w /\ Forall written_line w.
Proof.
  unfold scan_line.
  destruct (unwind line (indent st) (is_private st)) as [ind priv].
  destruct (visibility (slice_from line ind) priv).
  - intros H; injection H as <-. simpl.
    exists []. split; [now rewrite app_nil_r|constructor].
  - apply classify_output.
Qed.

(** X8.  The scanner only ever appends to its output: after any run of
    lines the output is the old output followed by new writes, and every
    new write is a text without trailing white space followed by one line
    feed. *)
Theorem output_append_only lines : forall st st',
  scan_lines st lines = Ok st' ->
  exists w, out_file st' = out_file st ++ w /\ Forall written_line w.
Proof.
  induction lines as [|line lines IH]; intros st st' H; simpl in H.
  - injection H as <-. exists []. split; [now rewrite app_nil_r|constructor].
  - destruct (scan_line st line) as [st1|e] eqn:E; simpl in H;
      [|discriminate].
    apply scan_line_output in E as (w1 & Hw1 & Hf1).
    apply IH in H as (w2 & Hw2 & Hf2).
    exists (w1 ++ w2). split.
    + now rewrite Hw2, Hw1, app_assoc.
    + apply Forall_app. auto.
Qed.

Lemma output_append_only_witness :
  exists w,
    emit 0 (class_template (str "Foo") []) ++ emit 2 (method_template (str "int Size()") [])
    = emit 0 (class_template (str "Foo") []) ++ w
    /\ Forall written_line w.
Proof.
  exact (@output_append_only
           [fileline "  int Size();"]
           (mk_scan 2 [] [] false (emit 0 (class_template (str "Foo") [])))
           (mk_scan 2 [] [] false
              (emit 0 (class_template (str "Foo") [])
               ++ emit 2 (method_template (str "int Size()") [])))
           eq_refl).
Defined.

Lemma visibility_slash l priv :
  startswith l (str "/") = true -> visibility l priv = priv.
Proof.
  intros H. destruct l as [|c l]; [discriminate|].
  cbn [str list_ascii_of_string startswith] in H.
  rewrite andb_true_r in H. apply Ascii.eqb_eq in H. subst c.
  reflexivity.
Qed.

Lemma rstrip_comment_start l :
  startswith l (str "//") = true \/ startswith l (str "/*") = true ->
  startswith_any (strip (rstrip l)) [str "//"; str "/*"] = true
  /\ startswith l (str "/") = true.
Proof.
  intros H.
  assert (G : forall c, isspace c = false ->
                startswith l ["/"%char; c] = true ->
                startswith (strip (rstrip l)) ["/"%char; c] = true
                /\ startswith l (str "/") = true).
  { intros c Hc Hl. pose proof (startswith_split _ _ Hl) as Hs.
    cbn [app length] in Hs. rewrite Hs. split; [|reflexivity].
    rewrite (@rstrip_cons_nonspace "/") by reflexivity.
    rewrite (@rstrip_cons_nonspace c) by exact Hc.
    rewrite (@strip_cons_nonspace "/") by reflexivity.
    rewrite (@rstrip_cons_nonspace c) by exact Hc.
    cbn [startswith]. now rewrite !Ascii.eqb_refl. }
  unfold startswith_any. cbn [existsb].
  change (str "//") with ["/"%char; "/"%char] in *.
  change (str "/*") with ["/"%char; "*"%char] in *.
  destruct H as [H|H].
  - destruct (G "/"%char eq_refl H) as [-> ?]. auto.
  - destruct (G "*"%char eq_refl H) as [-> ?]. rewrite orb_true_r. auto.
Qed.

Lemma comment_start_remap l :
  startswith l (str "//") = true \/ startswith l (str "/*") = true ->
  startswith_any (strip (remap (rstrip l))) [str "//"; str "/*"] = true.
Proof.
  intros H. unfold remap.
  destruct (lookup special_cases (rstrip l)) as [v|] eqn:E.
  - now apply special_cases_values_comment with (rstrip l).
  - now apply rstrip_comment_start.
Qed.

(** X9.  At indent 0 and public, a run of lines that begin with [//] or
    [/*] is cached whole and in order, each line without its trailing
    white space and after the [special_cases] replacement; nothing is
    written, and indent, visibility and the pending signature stay as they
    are. *)
Theorem comment_run_cached lines : forall st,
  indent st = 0%Z -> is_private st = false ->
  Forall (fun l => startswith l (str "//") = true
                   \/ startswith l (str "/*") = true) lines ->
  scan_lines st lines
  = Ok (mk_scan 0
          (cached_lines st ++ map (fun l => remap (rstrip l)) lines)
          (partial_function st) false (out_file st)).
Proof.
  induction lines as [|line lines IH]; intros st Hi Hp Hall; simpl.
  - rewrite app_nil_r. destruct st; simpl in *; now subst.
  - inversion Hall as [|? ? Hline Hrest]; subst.
    assert (Hstep :
      scan_line st line
      = Ok (mk_scan 0 (cached_lines st ++ [remap (rstrip line)])
              (partial_function st) false (out_file st))).
    { unfold scan_line. rewrite Hi, Hp, unwind_zero, slice_from_zero.
      rewrite visibility_slash
        by (now apply rstrip_comment_start).
      exact (@comment_line_cached 0%Z st line
               (@comment_start_remap line Hline)). }
    rewrite Hstep. cbn [bind].
    rewrite (IH (mk_scan 0 (cached_lines st ++ [remap (rstrip line)])
                   (partial_function st) false (out_file st))
               eq_refl eq_refl Hrest).
    cbn [cached_lines partial_function out_file].
    now rewrite <- app_assoc.
Qed.

Lemma comment_run_cached_witness :
  scan_lines scan_init [fileline "// Does X."; fileline "// ----------------"]
  = Ok (mk_scan 0 [str "// Does X."; str "// "] [] false []).
Proof.
  apply (@comment_run_cached
           [fileline "// Does X."; fileline "// ----------------"]
           scan_init eq_refl eq_refl).
  repeat (apply Forall_cons; [left; reflexivity|]). apply Forall_nil.
Defined.

Lemma rstrip_nil_tail c s : rstrip (c :: s) = [] -> rstrip s = [].
Proof.
  simpl. destruct (rstrip s); [reflexivity|discriminate].
Qed.

Lemma rstrip_nil_head c s : rstrip (c :: s) = [] -> isspace c = true.
Proof.
  simpl. destruct (rstrip s); [|discriminate].
  destruct (isspace c); [reflexivity|discriminate].
Qed.

Lemma rstrip_nil_skipn n : forall s, rstrip s = [] -> rstrip (skipn n s) = [].
Proof.
  induction n as [|n IH]; intros s H; [exact H|].
  destruct s as [|c s]; [exact H|].
  simpl. apply IH. now apply rstrip_nil_tail with c.
Qed.

Lemma rstrip_nil_slice s i : rstrip s = [] -> rstrip (slice_from s i) = [].
Proof.
  intros H. unfold slice_from.
  destruct (i <? 0)%Z; now apply rstrip_nil_skipn.
Qed.

Lemma visibility_blank l priv : rstrip l = [] -> visibility l priv = priv.
Proof.
  intros H. destruct l as [|c l]; [reflexivity|].
  apply rstrip_nil_head in H.
  unfold visibility, startswith_any.
  cbn [existsb str list_ascii_of_string startswith].
  destruct (Ascii.eqb_spec "r" c) as [<-|_]; [discriminate H|].
  destruct (Ascii.eqb_spec "u" c) as [<-|_]; [discriminate H|].
  reflexivity.
Qed.

(** X10.  A line of white space only, met while no signature is pending,
    leaves the comment cache and the output untouched: a blank line does
    not detach the cached comment from a declaration that follows it.
    Only the unwind loop may act on such a line. *)
Theorem blank_line_keeps_cache st line :
  rstrip line = [] -> partial_function st = [] ->
  let u := unwind line (indent st) (is_private st) in
  scan_line st line
  = Ok (mk_scan (fst u) (cached_lines st) [] (snd u) (out_file st)).
Proof.
  intros Hblank Hpartial u. unfold scan_line. fold u.
  destruct u as [ind priv]. cbn [fst snd].
  pose proof (@rstrip_nil_slice line ind Hblank) as Hs.
  rewrite (@visibility_blank _ priv Hs).
  destruct priv.
  - now rewrite Hpartial.
  - unfold classify. rewrite Hs, Hpartial. reflexivity.
Qed.

Lemma blank_line_keeps_cache_witness :
  scan_line (mk_scan 0 [str "// Does X."] [] false []) [nl]
  = Ok (mk_scan 0 [str "// Does X."] [] false []).
Proof.
  exact (@blank_line_keeps_cache
           (mk_scan 0 [str "// Does X."] [] false []) [nl]
           eq_refl eq_refl).
Defined.

(** X11.  A line that is not skipped and whose text, after the indent
    strip and without trailing white space, begins with [typedef] and
    ends with a semicolon is written as a type entry, given the
    description the formatter returns for the cached lines.  The name is
    the text from index 8 on, without its semicolons, trimmed; the cache
    is emptied and the indent grows by 2, as for a class. *)
Theorem typedef_entry st raw ind priv line description :
  unwind raw (indent st) (is_private st) = (ind, priv) ->
  visibility (slice_from raw ind) priv = false ->
  rstrip (slice_from raw ind) = line ->
  startswith line (str "typedef") = true ->
  endswith line (str ";") = true ->
  comment (cached_lines st) = Ok description ->
  scan_line st raw
  = Ok (mk_scan (ind + 2) [] [] false
          (out_file st
           ++ emit ind
                (type_template
                   (strip (filter not_semicolon (slice_from line 8)))
                   description))).
Proof.
  intros Hu Hv Hr Htypedef Hsemi Hdesc.
  unfold scan_line. rewrite Hu, Hv. unfold classify. rewrite Hr.
  pose proof (startswith_split _ _ Htypedef) as Hline.
  cbn [str list_ascii_of_string app length] in Hline.
  set (rest := skipn 7 line) in *.
  assert (Hcomment : startswith line (str "//") = false).
  { rewrite Hline. reflexivity. }
  rewrite (lookup_special_cases_none _ Hcomment).
  assert (Htags : startswith_any (strip line) COMMENT_TAGS = false).
  { rewrite Hline. rewrite strip_cons_nonspace by reflexivity.
    reflexivity. }
  assert (Hclass : startswith line (str "class") = false).
  { rewrite Hline. reflexivity. }
  rewrite Htags, Hclass, Htypedef, Hsemi. cbn [andb].
  rewrite Hdesc. cbn [bind]. unfold finish, typedef_name.
  change (str ";") with [";"%char]. rewrite replace_char_filter.
  rewrite Hline at 1. reflexivity.
Qed.

Lemma typedef_entry_witness :
  scan_line scan_init (fileline "typedef Vector3<double> S2Point;")
  = Ok (mk_scan 2 [] [] false
          (emit 0 (type_template (str "Vector3<double> S2Point") []))).
Proof.
  exact (@typedef_entry scan_init
           (fileline "typedef Vector3<double> S2Point;")
           0%Z false (str "typedef Vector3<double> S2Point;") []
           eq_refl eq_refl eq_refl eq_refl eq_refl eq_refl).
Defined.

Lemma comment_tags_visible s :
  startswith_any s [str "//"; str "/*"] = true ->
  startswith_any s COMMENT_TAGS = true.
Proof.
  unfold startswith_any, COMMENT_TAGS. cbn [existsb].
  rewrite orb_false_r. intros H. now rewrite orb_assoc, H.
Qed.

Lemma scan_line_no_declaration st line :
  indent st = 0%Z -> partial_function st = [] -> no_declaration line ->
  exists st',
    scan_line st line = Ok st'
    /\ indent st' = 0%Z /\ partial_function st' = []
    /\ out_file st' = out_file st.
Proof.
  intros Hi Hpf (Hparen & Hclass & Htypedef & Htemplate).
  unfold scan_line. rewrite Hi, unwind_zero, slice_from_zero.
  destruct (visibility line (is_private st)).
  { eexists; split; [reflexivity|]. simpl. auto. }
  unfold classify. rewrite Hpf. cbn [app].
  destruct (lookup special_cases (rstrip line)) as [v|] eqn:E.
  { rewrite (@comment_tags_visible (strip v))
      by (now apply special_cases_values_comment with (rstrip line)).
    eexists; split; [reflexivity|]. simpl. auto. }
  destruct (startswith_any (strip (rstrip line)) COMMENT_TAGS).
  { eexists; split; [reflexivity|]. simpl. auto. }
  rewrite (@startswith_rstrip _ _ Hclass), (@startswith_rstrip _ _ Htypedef),
    (@startswith_rstrip _ _ Htemplate).
  cbn [andb].
  assert (Hno : ~ In "("%char line).
  { intros Hin. apply (contains_char_In "("%char line) in Hin.
    change ["("%char] with (str "(") in Hin. congruence. }
  destruct (Re.search function_re (strip (rstrip line))) eqn:Ef.
  { exfalso. apply Hno.
    apply function_re_partial_of_full, function_re_partial_paren in Ef.
    now apply In_rstrip, In_strip. }
  destruct (Re.search function_re_partial (rstrip line)) eqn:Ep.
  { exfalso. apply Hno.
    apply function_re_partial_paren in Ep. now apply In_rstrip. }
  eexists; split; [reflexivity|]. simpl. auto.
Qed.

Lemma scan_lines_no_declaration lines : forall st,
  indent st = 0%Z -> partial_function st = [] ->
  Forall no_declaration lines ->
  exists st',
    scan_lines st lines = Ok st'
    /\ indent st' = 0%Z /\ out_file st' = out_file st.
Proof.
  induction lines as [|line lines IH]; intros st Hi Hpf Hall; simpl.
  - eauto.
  - inversion Hall as [|? ? Hline Hrest]; subst.
    destruct (@scan_line_no_declaration st _ Hi Hpf Hline)
      as (st1 & -> & Hi1 & Hpf1 & Ho1).
    cbn [bind].
    destruct (IH st1 Hi1 Hpf1 Hrest) as (st' & -> & Hi' & Ho').
    exists st'. rewrite Ho', Ho1. auto.
Qed.

(** X12.  A file none of whose lines has an opening parenthesis or begins
    with [class], [typedef] or [template] yields no output at all, and the
    scan does not fail on it. *)
Theorem no_declaration_no_output in_file :
  Forall no_declaration in_file -> extract_file in_file = Ok [].
Proof.
  intros H. unfold extract_file.
  destruct (@scan_lines_no_declaration in_file scan_init eq_refl eq_refl H)
    as (st & -> & _ & Ho).
  cbn [bind]. now rewrite Ho.
Qed.

Lemma no_declaration_no_output_witness :
  extract_file
    [fileline "// Copyright"; fileline "#include <vector>"; [nl];
     fileline "namespace s2 {"; fileline "}"]
  = Ok [].
Proof.
  apply (@no_declaration_no_output
           [fileline "// Copyright"; fileline "#include <vector>"; [nl];
            fileline "namespace s2 {"; fileline "}"]).
  repeat (apply Forall_cons; [repeat split; reflexivity|]).
  apply Forall_nil.
Defined.

Lemma unwind_loop_result line fuel : forall ind priv,
  (ind <= Z.of_nat fuel)%Z ->
  let u := unwind_loop fuel line ind priv in
  (fst u <= ind)%Z
  /\ Z.even (ind - fst u) = true
  /\ unwind_cond line (fst u) = false
  /\ snd u = (if (fst u =? ind)%Z then priv else false)
  /\ (forall j, (fst u < j <= ind)%Z -> Z.even (ind - j) = true ->
                unwind_cond line j = true).
Proof.
  induction fuel as [|fuel IH]; intros ind priv Hfuel; cbn [unwind_loop].
  - cbn [fst snd]. rewrite Z.sub_diag, Z.eqb_refl.
    repeat split; try reflexivity; try lia.
    apply unwind_cond_nonpositive. lia.
  - destruct (unwind_cond line ind) eqn:E.
    + assert (Hpos : (0 < ind)%Z).
      { destruct (Z.ltb_spec 0 ind); [assumption|].
        now rewrite unwind_cond_nonpositive in E by lia. }
      specialize (IH (ind - 2)%Z false).
      destruct (unwind_loop fuel line (ind - 2) false) as [k p].
      cbn [fst snd] in *.
      destruct IH as (Hle & Hev & Hc & Hp & Hmin); [lia|].
      assert (Hp' : p = false) by (now destruct (k =? ind - 2)%Z).
      repeat split.
      * lia.
      * replace (ind - k)%Z with ((ind - 2 - k) + 2)%Z by lia.
        rewrite Z.even_add, Hev. reflexivity.
      * exact Hc.
      * destruct (Z.eqb_spec k ind); [lia|exact Hp'].
      * intros j Hj Hej.
        destruct (Z.eq_dec j ind) as [->|Hne]; [exact E|].
        assert (j <> ind - 1)%Z.
        { intros ->. replace (ind - (ind - 1))%Z with 1%Z in Hej by lia.
          discriminate Hej. }
        apply Hmin; [lia|].
        replace (ind - j)%Z with ((ind - 2 - j) + 2)%Z in Hej by lia.
        rewrite Z.even_add in Hej.
        now destruct (Z.even (ind - 2 - j)).
    + cbn [fst snd]. rewrite Z.sub_diag, Z.eqb_refl.
      repeat split; try reflexivity; try lia. exact E.
Qed.

(** X13.  The unwind loop stops at the first level, counted down in
    steps of 2 from the tracked indent, at which its condition fails:
    every level passed on the way satisfied the condition, and visibility
    is reset to public exactly when at least one level was left. *)
Theorem unwind_stops_at_first_level line ind priv :
  let u := unwind line ind priv in
  (fst u <= ind)%Z
  /\ Z.even (ind - fst u) = true
  /\ unwind_cond line (fst u) = false
  /\ snd u = (if (fst u =? ind)%Z then priv else false)
  /\ (forall j, (fst u < j <= ind)%Z -> Z.even (ind - j) = true ->
                unwind_cond line j = true).
Proof.
  unfold unwind. apply unwind_loop_result. lia.
Qed.

Lemma unwind_stops_at_first_level_witness :
  unwind (fileline "  };") 4 true = (2%Z, false)
  /\ unwind_cond (fileline "  };") 2 = false
  /\ unwind_cond (fileline "  };") 4 = true.
Proof.
  pose proof (@unwind_stops_at_first_level (fileline "  };") 4%Z true) as H.
  assert (Hu : unwind (fileline "  };") 4 true = (2%Z, false))
    by reflexivity.
  cbv zeta in H. rewrite Hu in H. cbn [fst snd] in H.
  destruct H as (_ & _ & H3 & _ & H5).
  split; [reflexivity|split; [exact H3|]].
  apply (H5 4%Z); [lia|reflexivity].
Defined.

(** ** The layout of an entry *)

Lemma splitlines_scan_line a : forall cur rest,
  Forall (fun c => is_linebreak c = false) a ->
  splitlines_scan cur false (a ++ nl :: rest)
  = rev (rev a ++ cur) :: splitlines_scan [] false rest.
Proof.
  induction a as [|c a IH]; intros cur rest Ha.
  - reflexivity.
  - inversion Ha as [|? ? Hc Ha']; subst.
    change ((c :: a) ++ nl :: rest) with (c :: (a ++ nl :: rest)).
    cbn [splitlines_scan andb]. rewrite Hc.
    rewrite (IH (c :: cur) rest Ha').
    cbn [rev]. now rewrite <- app_assoc.
Qed.

Lemma rstrip_spaces n : rstrip (repeat " "%char n) = [].
Proof.
  induction n as [|n IH]; [reflexivity|].
  simpl. now rewrite IH.
Qed.

Lemma emit_template ind header name description :
  Forall (fun c => is_linebreak c = false) (header ++ name) ->
  emit ind ([nl] ++ header ++ name ++ [nl; nl] ++ description ++ [nl])
  = [nl] :: (rstrip (spaces ind ++ header ++ name) ++ [nl]) :: [nl]
    :: emit ind (description ++ [nl]).
Proof.
  intros H. unfold emit, splitlines.
  change ([nl] ++ header ++ name ++ [nl; nl] ++ description ++ [nl])
    with (nl :: (header ++ name ++ nl :: nl :: (description ++ [nl]))).
  change (splitlines_scan [] false
            (nl :: header ++ name ++ nl :: nl :: description ++ [nl]))
    with ([] :: splitlines_scan [] false
                  (header ++ name ++ nl :: nl :: description ++ [nl])).
  rewrite app_assoc, (splitlines_scan_line [] _ H).
  rewrite app_nil_r, rev_involutive.
  change (splitlines_scan [] false (nl :: description ++ [nl]))
    with ([] :: splitlines_scan [] false (description ++ [nl])).
  cbn [map]. rewrite app_nil_r. unfold spaces at 1 3.
  rewrite rstrip_spaces. reflexivity.
Qed.

(** X14.  An entry whose name holds no line boundary character is
    written as: an empty line, the header line ([.. cpp:class:: ],
    [.. cpp:function:: ] or [.. cpp:type:: ] and the name) behind the
    indent and without trailing white space, an empty line, then the lines
    of the description.  The two empty lines carry no indent. *)
Theorem entry_layout ind name description :
  Forall (fun c => is_linebreak c = false) name ->
  emit ind (class_template name description)
  = [nl] :: (rstrip (spaces ind ++ str ".. cpp:class:: " ++ name) ++ [nl])
    :: [nl] :: emit ind (description ++ [nl])
  /\ emit ind (method_template name description)
     = [nl]
       :: (rstrip (spaces ind ++ str ".. cpp:function:: " ++ name) ++ [nl])
       :: [nl] :: emit ind (description ++ [nl])
  /\ emit ind (type_template name description)
     = [nl] :: (rstrip (spaces ind ++ str ".. cpp:type:: " ++ name) ++ [nl])
       :: [nl] :: emit ind (description ++ [nl]).
Proof.
  intros H.
  assert (G : forall header,
             forallb (fun c => negb (is_linebreak c)) header = true ->
             Forall (fun c => is_linebreak c = false) (header ++ name)).
  { intros header Hh. apply Forall_app. split; [|exact H].
    apply Forall_forall. intros c Hc.
    rewrite forallb_forall in Hh. specialize (Hh c Hc).
    now destruct (is_linebreak c). }
  split; [|split]; apply emit_template; apply G; reflexivity.
Qed.

Lemma entry_layout_witness :
  emit 2 (method_template (str "int Size()") (str "  Number of cells."))
  = [[nl]; fileline "  .. cpp:function:: int Size()"; [nl];
     fileline "    Number of cells."].
Proof.
  rewrite (proj1 (proj2 (@entry_layout 2%Z (str "int Size()")
                           (str "  Number of cells.")
                           ltac:(repeat constructor)))).
  reflexivity.
Defined.

(** ** Stripping the usual comment lines *)

(** ** Stripping the usual comment lines *)

Lemma replace_head m t :
  contains m (removelast m) = false ->
  replace (m ++ t) m [] = replace t m [].
Proof. intros H. exact (@replace_leftmost m [] [] t H). Qed.

Lemma contains_longer m q t :
  contains m t = false -> contains (m ++ q) t = false.
Proof.
  intros Hm. destruct (contains (m ++ q) t) eqn:E; [|reflexivity].
  now rewrite (contains_prefix _ _ _ E) in Hm.
Qed.

(** X15.  A line made of one marker with its space, [// ], [/* ] or
    [ * ], and a text that holds none of [//], [/*] and [ *] is stripped
    to exactly that text. *)
Theorem strip_usual_comment_line t :
  contains (str "//") t = false ->
  contains (str "/*") t = false ->
  contains (str " *") t = false ->
  strip_comment_tags (str "// " ++ t) = t
  /\ strip_comment_tags (str "/* " ++ t) = t
  /\ strip_comment_tags (str " * " ++ t) = t.
Proof.
  intros H1 H2 H3.
  pose proof (contains_longer (str "//") (str " ") t H1) as H1'.
  pose proof (contains_longer (str "/*") (str " ") t H2) as H2'.
  pose proof (contains_longer (str " *") (str " ") t H3) as H3'.
  change (str "//" ++ str " ") with (str "// ") in H1'.
  change (str "/*" ++ str " ") with (str "/* ") in H2'.
  change (str " *" ++ str " ") with (str " * ") in H3'.
  assert (A1 := replace_absent t (str "// ") [] H1').
  assert (A2 := replace_absent t (str "//") [] H1).
  assert (A3 := replace_absent t (str "/* ") [] H2').
  assert (A4 := replace_absent t (str "/*") [] H2).
  assert (A5 := replace_absent t (str " * ") [] H3').
  assert (A6 := replace_absent t (str " *") [] H3).
  assert (S : forall a m, contains m (a ++ t) = false ->
                          replace (a ++ t) m [] = a ++ t).
  { intros a m. apply replace_absent. }
  unfold strip_comment_tags. split; [|split].
  - rewrite replace_head by reflexivity.
    now rewrite A1, A2, A3, A4, A5, A6.
  - rewrite (S (str "/* ") (str "// ")) by (cbn; exact H1').
    rewrite (S (str "/* ") (str "//")) by (cbn; exact H1).
    rewrite replace_head by reflexivity.
    now rewrite A3, A4, A5, A6.
  - rewrite (S (str " * ") (str "// ")) by (cbn; exact H1').
    rewrite (S (str " * ") (str "//")) by (cbn; exact H1).
    rewrite (S (str " * ") (str "/* ")) by (cbn; exact H2').
    rewrite (S (str " * ") (str "/*")) by (cbn; exact H2).
    rewrite replace_head by reflexivity.
    now rewrite A5, A6.
Qed.

Lemma strip_usual_comment_line_witness :
  strip_comment_tags (str "// " ++ str "Returns Y.") = str "Returns Y."
  /\ strip_comment_tags (str "/* " ++ str "Returns Y.") = str "Returns Y."
  /\ strip_comment_tags (str " * " ++ str "Returns Y.") = str "Returns Y.".
Proof.
  apply (@strip_usual_comment_line (str "Returns Y.")); reflexivity.
Defined.

(** ** Entries and the comment cache *)


